(** * gemini-video-transcriber: the transcription pipeline of [src/transcribe.py]

    A shallow embedding of the script: its naming helpers as functions on
    strings, its storage, inference and file-system calls as operations
    answered by an arbitrary outside world, and [main] as a computation in
    a small monad with Python's three ways of leaving a block (return,
    [raise], [sys.exit]).  Every run leaves a log of what it did; the
    theorems of the second half read the specification's sentences off that
    log. *)

From stdpp Require Import base strings gmap list pretty.
From Stdlib Require Import ZArith Ascii String Lia.

Local Open Scope Z_scope.

(** ** Python strings

    A [str] is modelled as a [string] of 8-bit characters.  Case mapping is
    the ASCII one ([A]-[Z] to [a]-[z]); characters outside that range are
    left as they are. *)

Module Str.

Definition is_upper (a : ascii) : bool :=
  let n := N_of_ascii a in ((65 <=? n) && (n <=? 90))%N.

Definition lower_char (a : ascii) : ascii :=
  if is_upper a then ascii_of_N (N_of_ascii a + 32) else a.

Fixpoint map (f : ascii → ascii) (s : string) : string :=
  match s with
  | EmptyString => EmptyString
  | String a s' => String (f a) (map f s')
  end.

(** [s.lower()] *)
Definition lower (s : string) : string := map lower_char s.

(** [s.replace(old, new)] for one-character [old] and [new], the only form
    the script uses. *)
Definition replace (old new : ascii) (s : string) : string :=
  map (λ a, if Ascii.eqb a old then new else a) s.

Fixpoint chars (s : string) : list ascii :=
  match s with
  | EmptyString => []
  | String a s' => a :: chars s'
  end.

(** [c in s] *)
Definition contains (c : ascii) (s : string) : bool :=
  existsb (Ascii.eqb c) (chars s).

(** No character of [s] is an upper-case letter. *)
Definition is_lower (s : string) : bool :=
  forallb (λ a, negb (is_upper a)) (chars s).

(** Truth value of a [str]: empty is false. *)
Definition truthy (s : string) : bool :=
  match s with EmptyString => false | _ => true end.

(** Truth value of an [Optional[str]]: [None] and the empty string are false. *)
Definition truthy_opt (o : option string) : bool :=
  match o with Some s => truthy s | None => false end.

(** [s[:n]] and [s[n:]] for [0 <= n]. *)
Fixpoint take (n : nat) (s : string) : string :=
  match n, s with
  | S n', String a s' => String a (take n' s')
  | _, _ => EmptyString
  end.

Fixpoint drop (n : nat) (s : string) : string :=
  match n, s with
  | S n', String _ s' => drop n' s'
  | _, _ => s
  end.

(** [s.rfind(c)]: index of the last [c], or [-1]. *)
Fixpoint rfind_from (c : ascii) (s : string) (i : Z) : Z :=
  match s with
  | EmptyString => -1
  | String a s' =>
      let r := rfind_from c s' (i + 1) in
      if 0 <=? r then r else if Ascii.eqb a c then i else -1
  end.

Definition rfind (c : ascii) (s : string) : Z := rfind_from c s 0.

(** Whitespace stripped by [str.strip()] in the ASCII range. *)
Definition is_space (a : ascii) : bool :=
  let n := N_of_ascii a in
  (((9 <=? n) && (n <=? 13)) || ((28 <=? n) && (n <=? 32)))%N.

Fixpoint lstrip (s : string) : string :=
  match s with
  | String a s' => if is_space a then lstrip s' else s
  | EmptyString => EmptyString
  end.

Fixpoint rstrip_with (p : ascii → bool) (s : string) : string :=
  match s with
  | EmptyString => EmptyString
  | String a s' =>
      match rstrip_with p s' with
      | EmptyString => if p a then EmptyString else String a EmptyString
      | r => String a r
      end
  end.

(** [s.strip()] *)
Definition strip (s : string) : string := rstrip_with is_space (lstrip s).

Definition startswith (c : ascii) (s : string) : bool :=
  match s with String a _ => Ascii.eqb a c | EmptyString => false end.

Fixpoint endswith (c : ascii) (s : string) : bool :=
  match s with
  | EmptyString => false
  | String a EmptyString => Ascii.eqb a c
  | String _ s' => endswith c s'
  end.

(** The line feed and the double quote, which have no literal of their own. *)
Definition nl : string := String (ascii_of_nat 10) EmptyString.
Definition dquote : string := String (ascii_of_nat 34) EmptyString.

End Str.

(** ** [os.path] (the POSIX flavour) *)

Module OsPath.

(** The scan of [genericpath._splitext]: is there a character other than
    the dot in [p[filenameIndex:dotIndex]]?  [todo] is
    [dotIndex - filenameIndex], the number of turns the [while] has left. *)
Fixpoint splitext_scan (p : string) (filenameIndex todo : nat) : bool :=
  match todo with
  | O => false
  | S todo' =>
      match String.get filenameIndex p with
      | Some "."%char => splitext_scan p (S filenameIndex) todo'
      | _ => true
      end
  end.

(** [os.path.splitext(p)] *)
Definition splitext (p : string) : string * string :=
  let sepIndex := Str.rfind "/" p in
  let dotIndex := Str.rfind "." p in
  if sepIndex <? dotIndex then
    let filenameIndex := sepIndex + 1 in
    if splitext_scan p (Z.to_nat filenameIndex)
         (Z.to_nat (dotIndex - filenameIndex))
    then (Str.take (Z.to_nat dotIndex) p, Str.drop (Z.to_nat dotIndex) p)
    else (p, EmptyString)
  else (p, EmptyString).

(** [os.path.basename(p)] *)
Definition basename (p : string) : string :=
  Str.drop (Z.to_nat (Str.rfind "/" p + 1)) p.

(** [os.path.dirname(p)] *)
Definition dirname (p : string) : string :=
  let head := Str.take (Z.to_nat (Str.rfind "/" p + 1)) p in
  if Str.truthy (Str.rstrip_with (Ascii.eqb "/") head)
  then Str.rstrip_with (Ascii.eqb "/") head
  else head.

(** [os.path.join(a, b)] *)
Definition join (a b : string) : string :=
  if Str.startswith "/" b then b
  else if negb (Str.truthy a) || Str.endswith "/" a then a +:+ b
  else a +:+ "/" +:+ b.

End OsPath.

(** ** Naming service *)

(** [get_staging_bucket_name(project_id, location)] *)
Definition get_staging_bucket_name (project_id location : string) : string :=
  let safe_project :=
    Str.lower (Str.replace "." "-" (Str.replace ":" "-" project_id)) in
  let safe_location := Str.lower location in
  "gemini-transcriber-" +:+ safe_project +:+ "-" +:+ safe_location.

(** [get_output_bucket_name(project_id)] *)
Definition get_output_bucket_name (project_id : string) : string :=
  let safe_project :=
    Str.lower (Str.replace "." "-" (Str.replace ":" "-" project_id)) in
  safe_project +:+ "-gemini-video-transcribe".

(** ** The outside world

    An exception is known by its message ([str(e)]).  [SystemExit] is not
    an [Exception]; it is an outcome of its own below. *)

Definition exn : Type := string.

Inductive res (A : Type) : Type :=
  | Ok (a : A)
  | Err (e : exn).
Arguments Ok {A} a.
Arguments Err {A} e.

(** The [.text] of one streamed response: a [str], or [None]. *)
Definition fragment : Type := option string.

(** A streamed response: the items the iterator hands out, in order; an
    [Err] item is an exception raised by [next]. *)
Definition stream : Type := list (res fragment).

(** Calls into libraries and services that may raise. *)
Inductive op : Type :=
  | Gcloud_config_get_value (key : string)
  | Google_auth_default
  | Storage_Client
  | Client_bucket (bucket_name : string)
  | Bucket_exists (bucket_name : string)
  | Bucket_create (bucket_name location : string)
  | Blob_upload_from_filename (bucket_name blob_name path : string)
  | Blob_upload_from_string (bucket_name blob_name content : string)
  | Blob_delete (bucket_name blob_name : string)
  | Vertexai_init (project_id location : string)
  | GenerativeModel (model_name : string)
  | Model_generate_content (model_name gcs_uri prompt_text : string)
  | Genai_Client (api_key : string)
  | Models_generate_content_stream (model_name gcs_uri prompt_text : string)
  | Os_makedirs (path : string)
  | File_open_w (path : string)
  | File_write (path content : string).

Definition op_val (o : op) : Type :=
  match o with
  | Gcloud_config_get_value _ => string
  | Google_auth_default => option string
  | Bucket_exists _ => bool
  | Model_generate_content _ _ _ => stream
  | Models_generate_content_stream _ _ _ => stream
  | _ => unit
  end.

(** Calls that always answer: [os.path.exists] and [int(time.time())]. *)
Inductive query : Type :=
  | Os_path_exists (path : string)
  | Time_time.

Definition query_val (q : query) : Type :=
  match q with
  | Os_path_exists _ => bool
  | Time_time => Z
  end.

(** What the script runs against: the services with a state of their own,
    the [transliterate] library and the place of the script on disk
    ([os.path.abspath(__file__)]). *)
Class Env : Type := {
  world : Type;
  handle : ∀ o : op, world → res (op_val o) * world;
  answer : ∀ q : query, world → query_val q * world;
  translit : string → res string;
  script_path : string;
}.

(** [sanitize_filename(filename)] *)
Definition sanitize_filename `{Env} (filename : string) : string :=
  let '(name, ext) := OsPath.splitext filename in
  let name := match translit name with Ok n => n | Err _ => name end in
  let name := Str.lower name in
  let name := Str.replace " " "_" name in
  name +:+ ".txt".

(** ** What a run leaves behind *)

(** A call of one of the script's own functions, with its arguments. *)
Inductive call : Type :=
  | Call_upload_to_gcs (bucket_name source_file_path destination_blob_name : string)
  | Call_ensure_bucket (bucket_name location : string)
  | Call_upload_text_to_gcs (bucket_name destination_blob_name text_content : string)
  | Call_delete_blob (bucket_name blob_name : string)
  | Call_transcribe_video (project_id location model_name gcs_uri prompt_text : string)
  | Call_get_gcloud_region
  | Call_transcribe_video_genai
      (api_key project_id location gcs_uri model_name prompt_text : string).

Inductive event : Type :=
  | Print (s : string)                      (* text written to stdout *)
  | PrintExc (e : exn)                      (* [traceback.print_exc()] *)
  | Ext (o : op) (ok : bool)                (* an outside call and whether it answered *)
  | Ask (q : query)
  | Next (item : option (res fragment))     (* the loop asks the iterator; [None]: exhausted *)
  | Enter (c : call)
  | Return (c : call) (v : option string)
  | Raised (c : call) (e : exn).

Inductive outcome (A : Type) : Type :=
  | Ret (a : A)
  | Raise (e : exn)
  | Exit (code : Z).
Arguments Ret {A} a.
Arguments Raise {A} e.
Arguments Exit {A} code.

Record state `{Env} : Type := State {
  outside : world;
  files : gmap string string;     (* local files written by the run *)
}.

Record run `{Env} (A : Type) : Type := Run {
  out : outcome A;
  fin : state;
  log : list event;
}.
Arguments Run {_ A} out fin log.
Arguments out {_ A} r.
Arguments fin {_ A} r.
Arguments log {_ A} r.

(** The exit status the shell sees: an uncaught exception ends the
    interpreter with status 1. *)
Definition exit_code {A} (o : outcome A) : Z :=
  match o with
  | Ret _ => 0
  | Raise _ => 1
  | Exit code => code
  end.

(** ** The monad of the script *)

Definition M `{Env} (A : Type) : Type := state → run A.

Definition prepend `{Env} {A} (evs : list event) (r : run A) : run A :=
  Run (out r) (fin r) (evs ++ log r).

Definition ret `{Env} {A} (a : A) : M A := λ s, Run (Ret a) s [].

Definition bind `{Env} {A B} (m : M A) (f : A → M B) : M B := λ s,
  match m s with
  | Run (Ret a) s1 e1 => prepend e1 (f a s1)
  | Run (Raise e) s1 e1 => Run (Raise e) s1 e1
  | Run (Exit c) s1 e1 => Run (Exit c) s1 e1
  end.

Notation "x ←' m ; k" := (bind m (λ x, k))
  (at level 20, m at level 100, k at level 200, right associativity,
   format "'[' x  ←'  m ;  '/' k ']'").
Notation "m ;;' k" := (bind m (λ _, k))
  (at level 100, k at level 200, right associativity).

Definition raise `{Env} {A} (e : exn) : M A := λ s, Run (Raise e) s [].

(** [sys.exit(code)] *)
Definition sys_exit `{Env} {A} (code : Z) : M A := λ s, Run (Exit code) s [].

Definition emit `{Env} (e : event) : M unit := λ s, Run (Ret tt) s [e].

(** [print(s)] and [print(s, end="")] *)
Definition print `{Env} (s : string) : M unit := emit (Print (s +:+ Str.nl)).
Definition print_end `{Env} (s : string) : M unit := emit (Print s).

(** [try: m  except Exception as e: h e] *)
Definition try_except `{Env} {A} (m : M A) (h : exn → M A) : M A := λ s,
  match m s with
  | Run (Raise e) s1 e1 => prepend e1 (h e s1)
  | r => r
  end.

(** [try: m  except: h] catches [SystemExit] too. *)
Definition try_except_all `{Env} {A} (m : M A) (h : M A) : M A := λ s,
  match m s with
  | Run (Ret a) s1 e1 => Run (Ret a) s1 e1
  | Run _ s1 e1 => prepend e1 (h s1)
  end.

(** [try: m  finally: f]: [f] runs however [m] ended; the way [m] ended
    stands unless [f] itself raises or exits. *)
Definition try_finally `{Env} {A} (m : M A) (f : M unit) : M A := λ s,
  match m s with
  | Run o s1 e1 =>
      match f s1 with
      | Run (Ret _) s2 e2 => Run o s2 (e1 ++ e2)
      | Run (Raise e) s2 e2 => Run (Raise e) s2 (e1 ++ e2)
      | Run (Exit c) s2 e2 => Run (Exit c) s2 (e1 ++ e2)
      end
  end.

(** An outside call: logged, then its value or its exception. *)
Definition ext `{Env} (o : op) : M (op_val o) := λ s,
  let '(r, w) := handle o (outside s) in
  let s1 := State _ w (files s) in
  match r with
  | Ok v => Run (Ret v) s1 [Ext o true]
  | Err e => Run (Raise e) s1 [Ext o false]
  end.

Definition ask `{Env} (q : query) : M (query_val q) := λ s,
  let '(v, w) := answer q (outside s) in
  Run (Ret v) (State _ w (files s)) [Ask q].

Definition set_file `{Env} (path content : string) : M unit := λ s,
  Run (Ret tt) (State _ (outside s) (<[path := content]> (files s))) [].

(** A function of the script: its entry and the way it ended are logged. *)
Definition traced `{Env} {A} (c : call) (show : A → option string)
    (body : M A) : M A := λ s,
  match body s with
  | Run (Ret a) s1 e1 => Run (Ret a) s1 (Enter c :: e1 ++ [Return c (show a)])
  | Run (Raise e) s1 e1 => Run (Raise e) s1 (Enter c :: e1 ++ [Raised c e])
  | Run (Exit n) s1 e1 => Run (Exit n) s1 (Enter c :: e1)
  end.

Definition no_value {A} (_ : A) : option string := None.

(** [for item in responses: acc = body acc item] *)
Fixpoint for_each `{Env} {A} (responses : stream) (acc : A)
    (body : A → fragment → M A) : M A :=
  match responses with
  | [] => emit (Next None) ;;' ret acc
  | Ok item :: rest =>
      emit (Next (Some (Ok item))) ;;'
      acc' ←' body acc item ;
      for_each rest acc' body
  | Err e :: _ => emit (Next (Some (Err e))) ;;' raise e
  end.

(** ** Storage gateway *)

(** [upload_to_gcs(bucket_name, source_file_path, destination_blob_name)] *)
Definition upload_to_gcs `{Env}
    (bucket_name source_file_path destination_blob_name : string) : M string :=
  traced (Call_upload_to_gcs bucket_name source_file_path destination_blob_name) Some
    (print ("Uploading " +:+ source_file_path +:+ " to gs://" +:+ bucket_name
              +:+ "/" +:+ destination_blob_name +:+ " ...") ;;'
     ext Storage_Client ;;'
     ext (Client_bucket bucket_name) ;;'
     ext (Blob_upload_from_filename bucket_name destination_blob_name source_file_path) ;;'
     print ("File uploaded to gs://" +:+ bucket_name +:+ "/" +:+ destination_blob_name) ;;'
     ret ("gs://" +:+ bucket_name +:+ "/" +:+ destination_blob_name)).

(** [ensure_bucket(bucket_name, location)]: the client is built before the
    [try]; the handle, the existence check and the creation are inside it. *)
Definition ensure_bucket `{Env} (bucket_name location : string) : M unit :=
  traced (Call_ensure_bucket bucket_name location) no_value
    (ext Storage_Client ;;'
     try_except
       (ext (Client_bucket bucket_name) ;;'
        found ←' ext (Bucket_exists bucket_name) ;
        if negb found then
          print ("Bucket " +:+ bucket_name +:+ " not found. Creating in "
                   +:+ location +:+ "...") ;;'
          ext (Bucket_create bucket_name location) ;;'
          print ("Created bucket: " +:+ bucket_name)
        else
          print ("Using existing bucket: " +:+ bucket_name))
       (λ e,
          print ("Warning: Issue checking/creating bucket " +:+ bucket_name
                   +:+ ": " +:+ e) ;;'
          print "Falling back to attempt straightforward usage...")).

(** [upload_text_to_gcs(bucket_name, destination_blob_name, text_content)] *)
Definition upload_text_to_gcs `{Env}
    (bucket_name destination_blob_name text_content : string) : M string :=
  traced (Call_upload_text_to_gcs bucket_name destination_blob_name text_content) Some
    (ext Storage_Client ;;'
     ext (Client_bucket bucket_name) ;;'
     ext (Blob_upload_from_string bucket_name destination_blob_name text_content) ;;'
     ret ("gs://" +:+ bucket_name +:+ "/" +:+ destination_blob_name)).

(** [delete_blob(bucket_name, blob_name)] *)
Definition delete_blob `{Env} (bucket_name blob_name : string) : M unit :=
  traced (Call_delete_blob bucket_name blob_name) no_value
    (ext Storage_Client ;;'
     ext (Client_bucket bucket_name) ;;'
     ext (Blob_delete bucket_name blob_name) ;;'
     print ("Blob " +:+ blob_name +:+ " deleted.")).

(** ** Inference gateway *)

Definition default_prompt : string :=
  "Transcribe the audio from this video, paying special attention to Ukrainian speech. Provide the output as pure text.".

(** What [print] shows for a fragment's text. *)
Definition show_fragment (f : fragment) : string :=
  match f with Some t => t | None => "None" end.

(** [full_text += None] *)
Definition concat_none_error : exn :=
  "can only concatenate str (not " +:+ Str.dquote +:+ "NoneType" +:+ Str.dquote
    +:+ ") to str".

(** [transcribe_video(project_id, location, model_name, gcs_uri, prompt_text)]:
    every response's text is printed and appended. *)
Definition transcribe_video `{Env}
    (project_id location model_name gcs_uri prompt_text : string) : M string :=
  traced (Call_transcribe_video project_id location model_name gcs_uri prompt_text) Some
    (print ("Initializing Vertex AI with project=" +:+ project_id
              +:+ ", location=" +:+ location) ;;'
     ext (Vertexai_init project_id location) ;;'
     print ("Loading model " +:+ model_name +:+ "...") ;;'
     ext (GenerativeModel model_name) ;;'
     print "Generating content..." ;;'
     responses ←' ext (Model_generate_content model_name gcs_uri prompt_text) ;
     full_text ←' for_each responses ""
       (λ full_text text_chunk,
          print_end (show_fragment text_chunk) ;;'
          match text_chunk with
          | Some t => ret (full_text +:+ t)
          | None => raise concat_none_error
          end) ;
     print Str.nl ;;'
     ret full_text).

(** [transcribe_video_genai(api_key, project_id, location, gcs_uri,
    model_name, prompt_text)]: a chunk is printed and appended only if its
    text is true. *)
Definition transcribe_video_genai `{Env}
    (api_key project_id location gcs_uri model_name prompt_text : string) : M string :=
  traced (Call_transcribe_video_genai api_key project_id location gcs_uri
            model_name prompt_text) Some
    (print ("Initializing GenAI Client for Vertex AI (Project: " +:+ project_id
              +:+ ", Location: " +:+ location +:+ ")...") ;;'
     ext (Genai_Client api_key) ;;'
     print ("Loading model " +:+ model_name +:+ "...") ;;'
     print "Generating content..." ;;'
     responses ←' ext (Models_generate_content_stream model_name gcs_uri prompt_text) ;
     full_text ←' for_each responses ""
       (λ full_text chunk,
          match chunk with
          | Some t =>
              if Str.truthy t then print_end t ;;' ret (full_text +:+ t)
              else ret full_text
          | None => ret full_text
          end) ;
     print Str.nl ;;'
     ret full_text).

(** [get_gcloud_region()] *)
Definition get_gcloud_region `{Env} : M (option string) :=
  traced Call_get_gcloud_region id
    (try_except
       (stdout ←' ext (Gcloud_config_get_value "compute/region") ;
        let region := Str.strip stdout in
        if Str.truthy region && negb (String.eqb region "(unset)")
        then ret (Some region) else ret None)
       (λ _, ret None)).

(** ** The orchestrator *)

(** The parsed command line.  [location] and [model] are [None] when the
    flag is absent and the parser's default applies. *)
Record args : Type := Args {
  file_path : string;
  bucket : option string;
  project : option string;
  location : option string;
  model : option string;
  preview : bool;
  keep_gcs : bool;
  api_key : option string;
}.

Definition or_else (o : option string) (d : string) : string :=
  match o with Some s => if Str.truthy s then s else d | None => d end.

Definition from_flag (o : option string) (d : string) : string :=
  match o with Some s => s | None => d end.

(** Lines 236-251: the project from the flag, else from the ambient
    credentials, else from the gcloud configuration. *)
Definition main_infer_project `{Env} (a : args) : M (option string) :=
  let project_id := project a in
  project_id ←'
    (if negb (Str.truthy_opt project_id) then
       try_except_all (ext Google_auth_default) (ret project_id)
     else ret project_id) ;
  if negb (Str.truthy_opt project_id) then
    try_except_all
      (stdout ←' ext (Gcloud_config_get_value "project") ;
       ret (Some (Str.strip stdout)))
      (ret project_id)
  else ret project_id.

(** Lines 259-267: the staging bucket is ensured only when it was derived. *)
Definition main_handle_buckets `{Env} (a : args) (project_id location : string)
    : M (string * string) :=
  staging_bucket_name ←'
    (if negb (Str.truthy_opt (bucket a)) then
       let staging_bucket_name := get_staging_bucket_name project_id location in
       ensure_bucket staging_bucket_name location ;;'
       ret staging_bucket_name
     else ret (from_flag (bucket a) "")) ;
  let output_bucket_name := get_output_bucket_name project_id in
  ensure_bucket output_bucket_name location ;;'
  ret (staging_bucket_name, output_bucket_name).

Definition local_output_dir `{Env} : string :=
  let project_root := OsPath.dirname (OsPath.dirname script_path) in
  OsPath.join (OsPath.join project_root "workspace") "output".

(** Lines 281-318, the body of the [try]: dispatch on the API key, save
    locally, mirror to the output bucket. *)
Definition main_transcribe_and_save `{Env} (a : args)
    (project_id location model_name gcs_uri file_name output_bucket_name : string)
    : M unit :=
  transcription_text ←'
    (if Str.truthy_opt (api_key a) then
       transcribe_video_genai (from_flag (api_key a) "") project_id location
         gcs_uri model_name default_prompt
     else
       transcribe_video project_id location model_name gcs_uri default_prompt) ;
  let output_filename := sanitize_filename file_name in
  found ←' ask (Os_path_exists local_output_dir) ;
  (if negb found then ext (Os_makedirs local_output_dir) else ret tt) ;;'
  let local_output_path := OsPath.join local_output_dir output_filename in
  ext (File_open_w local_output_path) ;;'
  set_file local_output_path "" ;;'
  ext (File_write local_output_path transcription_text) ;;'
  set_file local_output_path transcription_text ;;'
  print (Str.nl +:+ "[Local] Output saved to: " +:+ local_output_path) ;;'
  try_except
    (gcs_output_uri ←'
       upload_text_to_gcs output_bucket_name output_filename transcription_text ;
     print ("[GCS] Output uploaded to: " +:+ gcs_output_uri))
    (λ e, print ("Warning: Failed to upload output to GCS: " +:+ e)).

(** Lines 326-330, the body of the [finally]. *)
Definition main_cleanup `{Env} (a : args) (staging_bucket_name blob_name : string)
    : M unit :=
  if negb (keep_gcs a) then
    try_except
      (delete_blob staging_bucket_name blob_name)
      (λ e, print ("Warning: Failed to cleanup GCS blob: " +:+ e))
  else ret tt.

(** [main()], after [parser.parse_args()] *)
Definition main `{Env} (a : args) : M unit :=
  region ←' get_gcloud_region ;
  let default_region := or_else region "us-central1" in
  let location := from_flag (location a) default_region in
  let model_name :=
    if preview a then "gemini-3-pro-preview"
    else from_flag (model a) "gemini-2.5-pro" in
  found ←' ask (Os_path_exists (file_path a)) ;
  if negb found then
    print ("Error: File '" +:+ file_path a +:+ "' not found.") ;;' sys_exit 1
  else
  project_id ←' main_infer_project a ;
  if negb (Str.truthy_opt project_id)
     || String.eqb (from_flag project_id "") "(unset)" then
    print "Error: Google Cloud Project ID needed. Use --project or set up application default credentials." ;;'
    sys_exit 1
  else
  let project_id := from_flag project_id "" in
  print ("Using Project: " +:+ project_id +:+ ", Region: " +:+ location) ;;'
  buckets ←' main_handle_buckets a project_id location ;
  let staging_bucket_name := fst buckets in
  let output_bucket_name := snd buckets in
  let file_name := OsPath.basename (file_path a) in
  now ←' ask Time_time ;
  let blob_name := "gemini-transcriber-staging/" +:+ pretty now +:+ "_" +:+ file_name in
  gcs_uri ←'
    try_except
      (upload_to_gcs staging_bucket_name (file_path a) blob_name)
      (λ e, print ("Error uploading to GCS: " +:+ e) ;;' sys_exit 1) ;
  try_finally
    (try_except
       (main_transcribe_and_save a project_id location model_name gcs_uri
          file_name output_bucket_name)
       (λ e,
          print (Str.nl +:+ "An error occurred during transcription: " +:+ e) ;;'
          emit (PrintExc e) ;;'
          sys_exit 1))
    (main_cleanup a staging_bucket_name blob_name).

(** ** A scripted world

    A stateless stand-in for the services, as a test double would be: it
    says which calls raise and what the others answer. *)

Record mock : Type := Mock {
  mock_fails : op → bool;
  mock_on_disk : string → bool;
  mock_gcloud : string → string;
  mock_adc_project : option string;
  mock_bucket_exists : string → bool;
  mock_responses : stream;
  mock_now : Z;
}.

Definition mock_value (m : mock) (o : op) : op_val o :=
  match o return op_val o with
  | Gcloud_config_get_value key => mock_gcloud m key
  | Google_auth_default => mock_adc_project m
  | Bucket_exists b => mock_bucket_exists m b
  | Model_generate_content _ _ _ => mock_responses m
  | Models_generate_content_stream _ _ _ => mock_responses m
  | Storage_Client => tt
  | Client_bucket _ => tt
  | Bucket_create _ _ => tt
  | Blob_upload_from_filename _ _ _ => tt
  | Blob_upload_from_string _ _ _ => tt
  | Blob_delete _ _ => tt
  | Vertexai_init _ _ => tt
  | GenerativeModel _ => tt
  | Genai_Client _ => tt
  | Os_makedirs _ => tt
  | File_open_w _ => tt
  | File_write _ _ => tt
  end.

Definition mock_answer (m : mock) (q : query) : query_val q :=
  match q return query_val q with
  | Os_path_exists p => mock_on_disk m p
  | Time_time => mock_now m
  end.

(** The mock world: transliteration leaves a (Latin) name as it is. *)
Definition mock_env (m : mock) : Env := {|
  world := unit;
  handle o w := (if mock_fails m o then Err "boom" else Ok (mock_value m o), w);
  answer q w := (mock_answer m q, w);
  translit name := Ok name;
  script_path := "/opt/app/src/transcribe.py";
|}.

Definition mock_start (m : mock) : @state (mock_env m) :=
  @State (mock_env m) tt ∅.

(** Everything works; the model streams three fragments. *)
Definition sunny : mock := {|
  mock_fails _ := false;
  mock_on_disk p := String.eqb p "in/Clip One.mp4";
  mock_gcloud key := "(unset)" +:+ Str.nl;
  mock_adc_project := None;
  mock_bucket_exists _ := false;
  mock_responses := [Ok (Some "Hel"); Ok (Some "lo "); Ok (Some "world")];
  mock_now := 1700000000;
|}.

Definition with_fails (m : mock) (f : op → bool) : mock :=
  Mock f (mock_on_disk m) (mock_gcloud m) (mock_adc_project m)
    (mock_bucket_exists m) (mock_responses m) (mock_now m).

Definition with_responses (m : mock) (r : stream) : mock :=
  Mock (mock_fails m) (mock_on_disk m) (mock_gcloud m) (mock_adc_project m)
    (mock_bucket_exists m) r (mock_now m).

Definition plain_args : args := {|
  file_path := "in/Clip One.mp4";
  bucket := None;
  project := Some "example.com:my-proj";
  location := None;
  model := None;
  preview := false;
  keep_gcs := false;
  api_key := None;
|}.

(** ** Reading the log *)

(** The entries and exits of the script's own functions. *)
Definition is_call_event (e : event) : bool :=
  match e with
  | Enter _ | Return _ _ | Raised _ _ => true
  | _ => false
  end.

Definition calls (l : list event) : list event := List.filter is_call_event l.

Definition returned (c : call) (v : option string) : list event :=
  [Enter c; Return c v].

Definition raised (c : call) (e : exn) : list event :=
  [Enter c; Raised c e].

Definition is_delete_entry (e : event) : bool :=
  match e with Enter (Call_delete_blob _ _) => true | _ => false end.

Definition is_ensure_entry (e : event) : bool :=
  match e with Enter (Call_ensure_bucket _ _) => true | _ => false end.

Definition is_upload_entry (e : event) : bool :=
  match e with Enter (Call_upload_to_gcs _ _ _) => true | _ => false end.

Definition is_inference_entry (e : event) : bool :=
  match e with
  | Enter (Call_transcribe_video _ _ _ _ _) => true
  | Enter (Call_transcribe_video_genai _ _ _ _ _ _) => true
  | _ => false
  end.

(** A computation that stays inside one function of the script: it enters
    no other, leaves the local files alone and does not exit the process. *)
Definition inner `{Env} {A} (m : M A) : Prop :=
  ∀ s o s' ev, m s = Run o s' ev →
    files s' = files s ∧ calls ev = [] ∧ ∀ code, o ≠ Exit code.

(** The log of one call of a function, from entry to return or raise. *)
Inductive finished {A} (c : call) (show : A → option string)
    : outcome A → list event → Prop :=
  | finished_return a mid :
      calls mid = [] →
      finished c show (Ret a) (Enter c :: mid ++ [Return c (show a)])
  | finished_raise e mid :
      calls mid = [] →
      finished c show (Raise e) (Enter c :: mid ++ [Raised c e]).

(** ** The names a run works with

    The values [main] computes on its way, as functions of the command
    line and of what the world answered; the lemmas on [main] state its
    log in these terms. *)

Definition the_location (a : args) (region : option string) : string :=
  from_flag (location a) (or_else region "us-central1").

Definition the_model (a : args) : string :=
  if preview a then "gemini-3-pro-preview"
  else from_flag (model a) "gemini-2.5-pro".

Definition the_staging_bucket (a : args) (project_id loc : string) : string :=
  if Str.truthy_opt (bucket a) then from_flag (bucket a) ""
  else get_staging_bucket_name project_id loc.

Definition the_blob_name (a : args) (now : Z) : string :=
  "gemini-transcriber-staging/" +:+ pretty now +:+ "_"
    +:+ OsPath.basename (file_path a).

Definition the_inference_call (a : args) (project_id loc gcs_uri : string) : call :=
  if Str.truthy_opt (api_key a) then
    Call_transcribe_video_genai (from_flag (api_key a) "") project_id loc
      gcs_uri (the_model a) default_prompt
  else
    Call_transcribe_video project_id loc (the_model a) gcs_uri default_prompt.

Definition the_output_path `{Env} (a : args) : string :=
  OsPath.join local_output_dir (sanitize_filename (OsPath.basename (file_path a))).

Definition upload_warning (e : exn) : event :=
  Print ("Warning: Failed to upload output to GCS: " +:+ e +:+ Str.nl).

(** The calls of a provisioning that went through. *)
Definition ensured_buckets (a : args) (project_id loc : string) : list event :=
  (if Str.truthy_opt (bucket a) then []
   else returned (Call_ensure_bucket (get_staging_bucket_name project_id loc) loc) None)
  ++ returned (Call_ensure_bucket (get_output_bucket_name project_id) loc) None.

(** The ways the body of the [try] can end: inference raised; inference
    returned and saving locally raised; the text was saved and the mirror
    either went through or raised and was warned about. *)
Definition save_shape (inf : call) (mirror : string → call) (path : string)
    (before : gmap string string) (o : outcome unit)
    (after : gmap string string) (ev : list event) : Prop :=
  (∃ e, o = Raise e ∧ calls ev = raised inf e ∧ after = before)
  ∨ (∃ text e, o = Raise e ∧ calls ev = returned inf (Some text))
  ∨ (∃ text, o = Ret tt ∧ after = <[path := text]> before
       ∧ In (Ext (File_write path text) true) ev
       ∧ ((∃ uri, calls ev = returned inf (Some text)
                               ++ returned (mirror text) (Some uri))
          ∨ (∃ e, calls ev = returned inf (Some text) ++ raised (mirror text) e
                  ∧ In (upload_warning e) ev))).

(** The calls of the [finally]. *)
Definition cleanup_shape (a : args) (staging blob : string) (ev : list event) : Prop :=
  if keep_gcs a then calls ev = []
  else calls ev = returned (Call_delete_blob staging blob) None
       ∨ ∃ e, calls ev = raised (Call_delete_blob staging blob) e.

(** The calls of a provisioning that raised: in the staging bucket's
    [ensure_bucket] (derived names only) or in the output bucket's. *)
Definition provision_failure (a : args) (project_id loc : string) (e : exn)
    (cl : list event) : Prop :=
  (Str.truthy_opt (bucket a) = false
   ∧ cl = raised (Call_ensure_bucket (get_staging_bucket_name project_id loc) loc) e)
  ∨ cl = (if Str.truthy_opt (bucket a) then []
          else returned (Call_ensure_bucket (get_staging_bucket_name project_id loc) loc) None)
         ++ raised (Call_ensure_bucket (get_output_bucket_name project_id) loc) e.

(** Every way a run of [main] can go, call by call: it stops before the
    buckets (missing file, no project); provisioning raises; the upload
    raises; or the upload returns and the [try] and the [finally] run. *)
Definition main_shape `{Env} (a : args) (before : gmap string string)
    (o : outcome unit) (after : gmap string string) (ev : list event) : Prop :=
  ∃ region,
    let loc := the_location a region in
    let R := returned Call_get_gcloud_region region in
    (o = Exit 1 ∧ calls ev = R)
    ∨ ∃ pid,
        let st := the_staging_bucket a pid loc in
        (∃ e cl, o = Raise e ∧ provision_failure a pid loc e cl ∧ calls ev = R ++ cl)
        ∨ ∃ now,
            let blob := the_blob_name a now in
            let up := Call_upload_to_gcs st (file_path a) blob in
            (∃ e, o = Exit 1
                  ∧ calls ev = R ++ ensured_buckets a pid loc ++ raised up e)
            ∨ ∃ uri o1 ev1 ev2,
                calls ev = R ++ ensured_buckets a pid loc
                             ++ returned up (Some uri) ++ calls ev1 ++ calls ev2
                ∧ save_shape (the_inference_call a pid loc uri)
                    (Call_upload_text_to_gcs (get_output_bucket_name pid)
                       (sanitize_filename (OsPath.basename (file_path a))))
                    (the_output_path a) before o1 after ev1
                ∧ cleanup_shape a st blob ev2
                ∧ o = match o1 with Ret _ => Ret tt | _ => Exit 1 end
                ∧ (∀ x, In x ev1 → In x ev).

(** Exactly one inference function is entered. *)
Definition exactly_one_inference (l : list event) : Prop :=
  ∃ e, List.filter is_inference_entry l = [e].

(** Before every entry of [upload_to_gcs], [ensure_bucket] was entered on
    the bucket of that upload. *)
Definition staging_ensured_before_upload (l : list event) : Prop :=
  ∀ pre b p n post,
    l = pre ++ Enter (Call_upload_to_gcs b p n) :: post →
    ∃ loc, In (Enter (Call_ensure_bucket b loc)) pre.

(** Worlds and command lines for the examples: the upload raises; the
    output mirror raises; the storage client cannot be built. *)
Definition upload_raises : mock :=
  with_fails sunny
    (λ o, match o with Blob_upload_from_filename _ _ _ => true | _ => false end).

Definition mirror_raises : mock :=
  with_fails sunny
    (λ o, match o with Blob_upload_from_string _ _ _ => true | _ => false end).

Definition no_storage_client : mock :=
  with_fails sunny (λ o, match o with Storage_Client => true | _ => false end).

Definition explicit_bucket_args : args :=
  Args "in/Clip One.mp4" (Some "my-staging") (Some "example.com:my-proj")
    None None false false None.

Definition keep_args : args :=
  Args "in/Clip One.mp4" None (Some "example.com:my-proj")
    None None false true None.

Definition empty_key_args : args :=
  Args "in/Clip One.mp4" None (Some "example.com:my-proj")
    None None false false (Some "").

Definition key_args : args :=
  Args "in/Clip One.mp4" None (Some "example.com:my-proj")
    None None false false (Some "k-123").

Definition mock_run (m : mock) (a : args) : @run (mock_env m) unit :=
  @main (mock_env m) a (mock_start m).

(** ** Streams of fragments *)

(** A stream that hands out the given fragments and ends. *)
Definition stream_of (fs : list fragment) : stream := List.map Ok fs.

(** The concatenation of texts, in order. *)
Definition joined (ts : list string) : string :=
  List.fold_right String.append "" ts.

(** The texts of the fragments whose text is a non-empty string. *)
Definition kept (fs : list fragment) : list string :=
  List.flat_map
    (λ f, match f with
          | Some t => if Str.truthy t then [t] else []
          | None => []
          end) fs.

(** What the loop of [transcribe_video] logs on the texts [ts]: each
    fragment is asked for, then printed, before the next is asked for. *)
Definition consumed_all (ts : list string) : list event :=
  List.flat_map (λ t, [Next (Some (Ok (Some t))); Print t]) ts ++ [Next None].

(** The same for [transcribe_video_genai]: a fragment is printed only if
    its text is true. *)
Definition consumed_kept (fs : list fragment) : list event :=
  List.flat_map
    (λ f, Next (Some (Ok f))
          :: (if Str.truthy_opt f then [Print (show_fragment f)] else [])) fs
  ++ [Next None].

(** The whole log of a call of [transcribe_video] that is served the texts
    [ts], and of a call of [transcribe_video_genai] served the fragments
    [fs]. *)
Definition transcribe_video_log (p l m u q : string) (ts : list string)
    : list event :=
  Enter (Call_transcribe_video p l m u q)
  :: [Print ("Initializing Vertex AI with project=" +:+ p
               +:+ ", location=" +:+ l +:+ Str.nl);
      Ext (Vertexai_init p l) true;
      Print ("Loading model " +:+ m +:+ "..." +:+ Str.nl);
      Ext (GenerativeModel m) true;
      Print ("Generating content..." +:+ Str.nl);
      Ext (Model_generate_content m u q) true]
  ++ consumed_all ts
  ++ [Print (Str.nl +:+ Str.nl);
      Return (Call_transcribe_video p l m u q) (Some (joined ts))].

Definition transcribe_video_genai_log (k p l u m q : string) (fs : list fragment)
    : list event :=
  Enter (Call_transcribe_video_genai k p l u m q)
  :: [Print ("Initializing GenAI Client for Vertex AI (Project: " +:+ p
               +:+ ", Location: " +:+ l +:+ ")..." +:+ Str.nl);
      Ext (Genai_Client k) true;
      Print ("Loading model " +:+ m +:+ "..." +:+ Str.nl);
      Print ("Generating content..." +:+ Str.nl);
      Ext (Models_generate_content_stream m u q) true]
  ++ consumed_kept fs
  ++ [Print (Str.nl +:+ Str.nl);
      Return (Call_transcribe_video_genai k p l u m q) (Some (joined (kept fs)))].

Definition hello : list string := ["Hel"; "lo "; "world"].

Definition gappy : list fragment := [Some "Hel"; None; Some ""; Some "lo"].

(** ** Names *)

(** The last component of a path has a character other than the dot. *)
Definition has_stem (name : string) : bool :=
  existsb (λ a, negb (Ascii.eqb a ".")) (Str.chars (OsPath.basename name)).

(** The base of a file name is as [sanitize_filename] would leave it:
    transliteration does not change it (or fails), it is lower-case and it
    has no space. *)
Definition already_sanitized `{Env} (name : string) : Prop :=
  match translit name with Ok n => n | Err _ => name end = name
  ∧ Str.lower name = name
  ∧ Str.replace " " "_" name = name.

(** A bucket name with neither colon nor dot and no upper-case letter. *)
Definition clean_bucket_name (s : string) : Prop :=
  Str.contains ":" s = false ∧ Str.contains "." s = false
  ∧ Str.is_lower s = true.

Definition check_and_upload_raise : mock :=
  with_fails sunny
    (λ o, match o with
          | Bucket_exists _ | Blob_upload_from_filename _ _ _ => true
          | _ => false
          end).

(** A world with a memory: the existence check raises, and the storage
    client can be built once but not a second time. *)
Definition second_client_fails : Env := {|
  world := nat;
  handle o n :=
    match o return res (op_val o) * nat with
    | Storage_Client =>
        (if Nat.eqb n 1 then Err "no credentials" else Ok tt, S n)
    | Bucket_exists _ => (Err "boom", n)
    | o' => (Ok (mock_value sunny o'), n)
    end;
  answer q n := (mock_answer sunny q, n);
  translit name := Ok name;
  script_path := "/opt/app/src/transcribe.py";
|}.

Definition none_in_stream : mock :=
  with_responses sunny [Ok (Some "Hel"); Ok None; Ok (Some "lo")].

(** ** More vocabulary for the log *)

(** An event that touches the local file system. *)
Definition is_file_event (e : event) : bool :=
  match e with
  | Ext (Os_makedirs _) _ | Ext (File_open_w _) _ | Ext (File_write _ _) _ => true
  | _ => false
  end.

(** A file extension as [splitext] would split it off: a dot followed by
    characters that are neither dot nor slash. *)
Definition plain_extension (ext : string) : bool :=
  match ext with
  | String "." rest => negb (Str.contains "." rest) && negb (Str.contains "/" rest)
  | _ => false
  end.

Definition is_create_event (e : event) : bool :=
  match e with Ext (Bucket_create _ _) _ => true | _ => false end.

(** A stream that hands out the texts [ts] and then raises [e]. *)
Definition broken_stream (ts : list string) (e : exn) (rest : stream) : stream :=
  stream_of (List.map Some ts) ++ Err e :: rest.

Definition stream_breaks : mock :=
  with_responses sunny (broken_stream ["Hel"; "lo "] "connection reset" [Ok (Some "world")]).

Definition bucket_exists_already : mock :=
  Mock (mock_fails sunny) (mock_on_disk sunny) (mock_gcloud sunny)
    (mock_adc_project sunny) (λ _, true) (mock_responses sunny) (mock_now sunny).

Definition is_mirror_entry (e : event) : bool :=
  match e with Enter (Call_upload_text_to_gcs _ _ _) => true | _ => false end.

Definition inference_raises : mock :=
  with_fails sunny
    (λ o, match o with
          | Model_generate_content _ _ _ | Models_generate_content_stream _ _ _ => true
          | _ => false
          end).

Definition preview_args : args :=
  Args "in/Clip One.mp4" None (Some "example.com:my-proj")
    (Some "europe-west4") (Some "gemini-2.0-flash") true false (Some "k-123").

(** The landmarks of a log: the calls of the script's functions and the
    events that touch the local file system. *)
Definition is_mark (e : event) : bool := is_call_event e || is_file_event e.

Definition marks (l : list event) : list event := List.filter is_mark l.

(** A computation none of whose events satisfies [p]. *)
Definition silent `{Env} {A} (p : event → bool) (m : M A) : Prop :=
  ∀ s, List.filter p (log (m s)) = [].

(** The project [main] goes on with: not empty, not gcloud's placeholder,
    and the one given with [--project] when that is not empty. *)
Definition project_resolved (a : args) (pid : string) : Prop :=
  Str.truthy pid = true ∧ pid ≠ "(unset)"
  ∧ (Str.truthy_opt (project a) = true → project a = Some pid).

(** The region [get_gcloud_region] may return. *)
Definition region_reported (region : option string) : Prop :=
  match region with
  | None => True
  | Some r => Str.truthy r = true ∧ r ≠ "(unset)"
  end.

(** The landmarks of the body of the [try], case by case: the inference
    raised; [os.makedirs] raised; [open] raised; [write] raised after
    [open] had emptied the file; the text was written and the mirror
    returned or raised. *)
Definition save_marks (inf : call) (mirror : string → call) (dir path : string)
    (before : gmap string string) (o : outcome unit)
    (after : gmap string string) (m : list event) : Prop :=
  (∃ e, o = Raise e ∧ m = raised inf e ∧ after = before)
  ∨ ∃ text mk,
      (mk = [] ∨ mk = [Ext (Os_makedirs dir) true])
      ∧ ((∃ e, o = Raise e ∧ after = before
               ∧ m = returned inf (Some text) ++ [Ext (Os_makedirs dir) false])
         ∨ (∃ e, o = Raise e ∧ after = before
                 ∧ m = returned inf (Some text) ++ mk
                       ++ [Ext (File_open_w path) false])
         ∨ (∃ e, o = Raise e ∧ after = <[path := ""]> before
                 ∧ m = returned inf (Some text) ++ mk
                       ++ [Ext (File_open_w path) true;
                           Ext (File_write path text) false])
         ∨ (o = Ret tt ∧ after = <[path := text]> before
            ∧ ∃ tail,
                m = returned inf (Some text) ++ mk
                    ++ [Ext (File_open_w path) true;
                        Ext (File_write path text) true] ++ tail
                ∧ ((∃ uri, tail = returned (mirror text) (Some uri))
                   ∨ ∃ e, tail = raised (mirror text) e))).

(** The state in which [main] looks for a project: after the region
    lookup and the check of the path. *)
Definition state_before_project `{Env} (a : args) (s : state) : state :=
  fin (ask (Os_path_exists (file_path a)) (fin (get_gcloud_region s))).

(** Every way a run of [main] can go, landmark by landmark; [region] is
    what the region lookup of this run returned and [pid] the project its
    project lookup returned. *)
Definition main_marks `{Env} (a : args) (s : state) (r : run unit) : Prop :=
  ∃ region,
    (region_reported region ∧ out (get_gcloud_region s) = Ret region) ∧
    let loc := the_location a region in
    let R := returned Call_get_gcloud_region region in
    (out r = Exit 1 ∧ files (fin r) = files s ∧ marks (log r) = R)
    ∨ ∃ pid,
        (project_resolved a pid
         ∧ out (main_infer_project a (state_before_project a s)) = Ret (Some pid)) ∧
        let st := the_staging_bucket a pid loc in
        let ob := get_output_bucket_name pid in
        (∃ e cl, out r = Raise e ∧ files (fin r) = files s
                 ∧ provision_failure a pid loc e cl ∧ marks (log r) = R ++ cl)
        ∨ ∃ now,
            let blob := the_blob_name a now in
            let up := Call_upload_to_gcs st (file_path a) blob in
            let uri := "gs://" +:+ st +:+ "/" +:+ blob in
            (∃ e, out r = Exit 1 ∧ files (fin r) = files s
                  ∧ marks (log r) = R ++ ensured_buckets a pid loc ++ raised up e)
            ∨ ∃ o1 m1 m2,
                marks (log r) = R ++ ensured_buckets a pid loc
                                  ++ returned up (Some uri) ++ m1 ++ m2
                ∧ save_marks (the_inference_call a pid loc uri)
                    (Call_upload_text_to_gcs ob
                       (sanitize_filename (OsPath.basename (file_path a))))
                    local_output_dir (the_output_path a)
                    (files s) o1 (files (fin r)) m1
                ∧ (if keep_gcs a then m2 = []
                   else m2 = returned (Call_delete_blob st blob) None
                        ∨ ∃ e, m2 = raised (Call_delete_blob st blob) e)
                ∧ out r = match o1 with Ret _ => Ret tt | _ => Exit 1 end.

(** The part of a list before its first element that satisfies [p]. *)
Fixpoint before {A} (p : A → bool) (l : list A) : list A :=
  match l with
  | [] => []
  | x :: l' => if p x then [] else x :: before p l'
  end.

(** A lookup of the project: the ambient credentials or the gcloud
    configuration. *)
Definition is_project_lookup (e : event) : bool :=
  match e with
  | Ext Google_auth_default _ => true
  | Ext (Gcloud_config_get_value key) _ => String.eqb key "project"
  | _ => false
  end.

(** Worlds and command lines for more examples: the write to the output
    file raises; the file to transcribe is not there. *)
Definition write_raises : mock :=
  with_fails sunny (λ o, match o with File_write _ _ => true | _ => false end).

Definition missing_file_args : args :=
  Args "in/Nope.mp4" None (Some "example.com:my-proj")
    None None false false None.

Definition staged_uri : string :=
  "gs://gemini-transcriber-example-com-my-proj-us-central1/gemini-transcriber-staging/1700000000_Clip One.mp4".

(** * Proofs *)

(** ** Stepping through the monad *)

Section Steps.
Context `{Env}.

Lemma calls_app (l1 l2 : list event) : calls (l1 ++ l2) = calls l1 ++ calls l2.
Proof. apply List.filter_app. Qed.

Lemma in_calls (e : event) (l : list event) :
  In e l → is_call_event e = true → In e (calls l).
Proof. intros Hin He. apply List.filter_In. done. Qed.

Lemma calls_in (e : event) (l : list event) : In e (calls l) → In e l.
Proof. intros Hin. apply List.filter_In in Hin. tauto. Qed.

Lemma bind_inv {A B} (m : M A) (f : A → M B) s o s' ev :
  bind m f s = Run o s' ev →
  ∃ o1 s1 e1, m s = Run o1 s1 e1 ∧
    match o1 with
    | Ret a => ∃ e2, f a s1 = Run o s' e2 ∧ ev = e1 ++ e2
    | Raise e => o = Raise e ∧ s' = s1 ∧ ev = e1
    | Exit c => o = Exit c ∧ s' = s1 ∧ ev = e1
    end.
Proof.
  unfold bind. destruct (m s) as [[a|e|c] s1 e1]; intros Hr.
  - exists (Ret a), s1, e1. split; [done|].
    destruct (f a s1) as [o2 s2 e2]. unfold prepend in Hr; simpl in Hr.
    exists e2. by inversion Hr.
  - exists (Raise e), s1, e1. by inversion Hr.
  - exists (Exit c), s1, e1. by inversion Hr.
Qed.

Lemma try_except_inv {A} (m : M A) (h : exn → M A) s o s' ev :
  try_except m h s = Run o s' ev →
  ∃ o1 s1 e1, m s = Run o1 s1 e1 ∧
    match o1 with
    | Raise e => ∃ e2, h e s1 = Run o s' e2 ∧ ev = e1 ++ e2
    | _ => o = o1 ∧ s' = s1 ∧ ev = e1
    end.
Proof.
  unfold try_except. destruct (m s) as [[a|e|c] s1 e1]; intros Hr.
  - exists (Ret a), s1, e1. by inversion Hr.
  - exists (Raise e), s1, e1. split; [done|].
    destruct (h e s1) as [o2 s2 e2]. unfold prepend in Hr; simpl in Hr.
    exists e2. by inversion Hr.
  - exists (Exit c), s1, e1. by inversion Hr.
Qed.

Lemma try_except_all_inv {A} (m : M A) (h : M A) s o s' ev :
  try_except_all m h s = Run o s' ev →
  ∃ o1 s1 e1, m s = Run o1 s1 e1 ∧
    match o1 with
    | Ret a => o = Ret a ∧ s' = s1 ∧ ev = e1
    | _ => ∃ e2, h s1 = Run o s' e2 ∧ ev = e1 ++ e2
    end.
Proof.
  unfold try_except_all. destruct (m s) as [[a|e|c] s1 e1]; intros Hr.
  - exists (Ret a), s1, e1. by inversion Hr.
  - exists (Raise e), s1, e1. split; [done|].
    destruct (h s1) as [o2 s2 e2]. unfold prepend in Hr; simpl in Hr.
    exists e2. by inversion Hr.
  - exists (Exit c), s1, e1. split; [done|].
    destruct (h s1) as [o2 s2 e2]. unfold prepend in Hr; simpl in Hr.
    exists e2. by inversion Hr.
Qed.

Lemma try_finally_inv {A} (m : M A) (f : M unit) s o s' ev :
  try_finally m f s = Run o s' ev →
  ∃ o1 s1 e1 o2 e2, m s = Run o1 s1 e1 ∧ f s1 = Run o2 s' e2 ∧ ev = e1 ++ e2 ∧
    match o2 with
    | Ret _ => o = o1
    | Raise e => o = Raise e
    | Exit c => o = Exit c
    end.
Proof.
  unfold try_finally. destruct (m s) as [o1 s1 e1].
  destruct (f s1) as [[[]|e|c] s2 e2] eqn:Hf; intros Hr; inversion Hr; subst;
    eexists _, _, _, _, _; (split; [reflexivity|]); (split; [exact Hf|]); done.
Qed.

(** *** Computations that stay inside a function *)

Lemma inner_ret {A} (a : A) : inner (ret a).
Proof. intros s o s' ev Hr. inversion Hr. done. Qed.

Lemma inner_raise {A} (e : exn) : inner (@raise _ A e).
Proof. intros s o s' ev Hr. inversion Hr. done. Qed.

Lemma inner_emit (e : event) : is_call_event e = false → inner (emit e).
Proof.
  intros He s o s' ev Hr. inversion Hr. subst. unfold calls; simpl.
  by rewrite He.
Qed.

Lemma inner_print (t : string) : inner (print t).
Proof. by apply inner_emit. Qed.

Lemma inner_print_end (t : string) : inner (print_end t).
Proof. by apply inner_emit. Qed.

Lemma inner_ext (o : op) : inner (ext o).
Proof.
  intros s o' s' ev Hr. unfold ext in Hr.
  destruct (handle o (outside s)) as [[v|e] w]; inversion Hr; done.
Qed.

Lemma inner_ask (q : query) : inner (ask q).
Proof.
  intros s o' s' ev Hr. unfold ask in Hr.
  destruct (answer q (outside s)) as [v w]; inversion Hr; done.
Qed.

Lemma inner_bind {A B} (m : M A) (f : A → M B) :
  inner m → (∀ a, inner (f a)) → inner (bind m f).
Proof.
  intros Hm Hf s o s' ev Hr.
  apply bind_inv in Hr as (o1 & s1 & e1 & Hm1 & Hr).
  apply Hm in Hm1 as (Hf1 & Hc1 & Hx1).
  destruct o1 as [a|e|c].
  - destruct Hr as (e2 & Hr & ->). apply Hf in Hr as (Hf2 & Hc2 & Hx2).
    rewrite calls_app, Hc1, Hc2. split; [congruence|done].
  - destruct Hr as (-> & -> & ->). done.
  - by destruct (Hx1 c).
Qed.

Lemma inner_try_except {A} (m : M A) (h : exn → M A) :
  inner m → (∀ e, inner (h e)) → inner (try_except m h).
Proof.
  intros Hm Hh s o s' ev Hr.
  apply try_except_inv in Hr as (o1 & s1 & e1 & Hm1 & Hr).
  apply Hm in Hm1 as (Hf1 & Hc1 & Hx1).
  destruct o1 as [a|e|c].
  - destruct Hr as (-> & -> & ->). done.
  - destruct Hr as (e2 & Hr & ->). apply Hh in Hr as (Hf2 & Hc2 & Hx2).
    rewrite calls_app, Hc1, Hc2. split; [congruence|done].
  - by destruct (Hx1 c).
Qed.

Lemma inner_try_except_all {A} (m : M A) (h : M A) :
  inner m → inner h → inner (try_except_all m h).
Proof.
  intros Hm Hh s o s' ev Hr.
  apply try_except_all_inv in Hr as (o1 & s1 & e1 & Hm1 & Hr).
  apply Hm in Hm1 as (Hf1 & Hc1 & Hx1).
  destruct o1 as [a|e|c].
  - destruct Hr as (-> & -> & ->). done.
  - destruct Hr as (e2 & Hr & ->). apply Hh in Hr as (Hf2 & Hc2 & Hx2).
    rewrite calls_app, Hc1, Hc2. split; [congruence|done].
  - by destruct (Hx1 c).
Qed.

Lemma inner_for_each {A} (rs : stream) (body : A → fragment → M A) :
  (∀ acc item, inner (body acc item)) → ∀ acc, inner (for_each rs acc body).
Proof.
  intros Hb. induction rs as [|[item|e] rs IH]; intros acc; simpl.
  - apply inner_bind; [by apply inner_emit|intros; apply inner_ret].
  - apply inner_bind; [by apply inner_emit|intros _].
    apply inner_bind; [apply Hb|intros; apply IH].
  - apply inner_bind; [by apply inner_emit|intros; apply inner_raise].
Qed.

Lemma inner_if {A} (b : bool) (m1 m2 : M A) :
  inner m1 → inner m2 → inner (if b then m1 else m2).
Proof. by destruct b. Qed.

(** One call of a function whose body stays inside it. *)
Lemma traced_inv {A} (c : call) (show : A → option string) (body : M A) :
  inner body → ∀ s o s' ev, traced c show body s = Run o s' ev →
    files s' = files s ∧ finished c show o ev.
Proof.
  intros Hb s o s' ev Hr. unfold traced in Hr.
  destruct (body s) as [o1 s1 e1] eqn:Hbs.
  apply Hb in Hbs as (Hf & Hc & Hx).
  destruct o1 as [a|e|n]; inversion Hr; subst.
  - split; [done|by constructor].
  - split; [done|by constructor].
  - by destruct (Hx n).
Qed.

Lemma calls_finished {A} (c : call) (show : A → option string) o ev :
  finished c show o ev →
  calls ev = match o with
             | Ret a => returned c (show a)
             | Raise e => raised c e
             | Exit _ => []
             end.
Proof.
  intros [a mid Hmid|e mid Hmid]; change (Enter c :: ?l) with ([Enter c] ++ l);
    rewrite !calls_app, Hmid; reflexivity.
Qed.

End Steps.

Ltac inner_tac :=
  repeat first
    [ apply inner_ret | apply inner_raise | apply inner_print
    | apply inner_print_end | apply inner_ext | apply inner_ask
    | apply inner_bind; [|intros ?]
    | apply inner_try_except; [|intros ?]
    | apply inner_try_except_all
    | apply inner_for_each; intros ? ?
    | apply inner_if
    | apply inner_emit; reflexivity
    | match goal with |- inner (match ?x with _ => _ end) => destruct x end ].

(** One step of a sequence: how its first computation ended, and the rest. *)
Ltac step H :=
  apply bind_inv in H;
  let o1 := fresh "o" in let s1 := fresh "s" in let e1 := fresh "ev" in
  let Hm := fresh "Hm" in
  destruct H as (o1 & s1 & e1 & Hm & H).

Tactic Notation "unbind" hyp(H) "as" ident(o1) ident(s1) ident(e1) ident(Hm) :=
  apply bind_inv in H; destruct H as (o1 & s1 & e1 & Hm & H).

(** ** The functions of the script, one call at a time *)

Section Functions.
Context `{Env}.

(** [get_gcloud_region] returns whatever happens. *)
Lemma get_gcloud_region_inv s o s' ev :
  get_gcloud_region s = Run o s' ev →
  files s' = files s ∧ ∃ region, o = Ret region ∧
    calls ev = returned Call_get_gcloud_region region.
Proof.
  unfold get_gcloud_region, traced, try_except, bind, ext.
  destruct (handle _ (outside s)) as [[stdout|e] w]; simpl.
  - destruct (_ && _); simpl; intros Hr; inversion Hr; subst; eauto.
  - intros Hr; inversion Hr; subst; eauto.
Qed.

Lemma ensure_bucket_inv b l s o s' ev :
  ensure_bucket b l s = Run o s' ev →
  files s' = files s ∧ finished (Call_ensure_bucket b l) no_value o ev.
Proof. apply traced_inv. inner_tac. Qed.

Lemma upload_to_gcs_inv b p n s o s' ev :
  upload_to_gcs b p n s = Run o s' ev →
  files s' = files s ∧ finished (Call_upload_to_gcs b p n) Some o ev.
Proof. apply traced_inv. inner_tac. Qed.

Lemma upload_text_to_gcs_inv b n t s o s' ev :
  upload_text_to_gcs b n t s = Run o s' ev →
  files s' = files s ∧ finished (Call_upload_text_to_gcs b n t) Some o ev.
Proof. apply traced_inv. inner_tac. Qed.

Lemma delete_blob_inv b n s o s' ev :
  delete_blob b n s = Run o s' ev →
  files s' = files s ∧ finished (Call_delete_blob b n) no_value o ev.
Proof. apply traced_inv. inner_tac. Qed.

Lemma transcribe_video_inv p l m u q s o s' ev :
  transcribe_video p l m u q s = Run o s' ev →
  files s' = files s ∧ finished (Call_transcribe_video p l m u q) Some o ev.
Proof. apply traced_inv. inner_tac. Qed.

Lemma transcribe_video_genai_inv k p l u m q s o s' ev :
  transcribe_video_genai k p l u m q s = Run o s' ev →
  files s' = files s ∧ finished (Call_transcribe_video_genai k p l u m q) Some o ev.
Proof. apply traced_inv. inner_tac. Qed.

Lemma main_infer_project_inner a : inner (main_infer_project a).
Proof. unfold main_infer_project. inner_tac. Qed.

End Functions.

(** ** The blocks of [main] *)

Section Blocks.
Context `{Env}.

Lemma main_infer_project_returns a s o s' ev :
  main_infer_project a s = Run o s' ev → ∃ project_id, o = Ret project_id.
Proof.
  unfold main_infer_project. intros Hr. step Hr.
  assert (∃ p, o0 = Ret p) as [p ->].
  { destruct (negb _).
    - apply try_except_all_inv in Hm as (o1 & s1 & e1 & Hm & Hr1).
      destruct o1 as [v|e|c].
      + destruct Hr1 as (-> & _). eauto.
      + destruct Hr1 as (e2 & Hr1 & _). inversion Hr1; eauto.
      + destruct Hr1 as (e2 & Hr1 & _). inversion Hr1; eauto.
    - inversion Hm; eauto. }
  destruct Hr as (e2 & Hr & _). destruct (negb _).
  - apply try_except_all_inv in Hr as (o1 & s1 & e1 & Hm1 & Hr1).
    destruct o1 as [v|e|c].
    + destruct Hr1 as (-> & _). eauto.
    + destruct Hr1 as (e3 & Hr1 & _). inversion Hr1; eauto.
    + destruct Hr1 as (e3 & Hr1 & _). inversion Hr1; eauto.
  - inversion Hr; eauto.
Qed.

Lemma main_handle_buckets_inv a pid loc s o s' ev :
  main_handle_buckets a pid loc s = Run o s' ev →
  files s' = files s ∧
  ((o = Ret (the_staging_bucket a pid loc, get_output_bucket_name pid)
    ∧ calls ev = ensured_buckets a pid loc)
   ∨ ∃ e, o = Raise e ∧ provision_failure a pid loc e (calls ev)).
Proof.
  unfold main_handle_buckets, the_staging_bucket, ensured_buckets,
    provision_failure.
  intros Hr. step Hr. destruct (Str.truthy_opt (bucket a)); simpl in *.
  - inversion Hm; subst. destruct Hr as (e2 & Hr & ->). step Hr.
    apply ensure_bucket_inv in Hm0 as [Hf Hfin].
    apply calls_finished in Hfin as Hc. destruct Hfin.
    + destruct Hr as (e3 & Hr & ->). inversion Hr; subst.
      rewrite !calls_app, Hc. simpl. eauto.
    + destruct Hr as (-> & -> & ->). rewrite calls_app, Hc. simpl. eauto 6.
  - step Hm. apply ensure_bucket_inv in Hm0 as [Hf Hfin].
    apply calls_finished in Hfin as Hc. destruct Hfin.
    + destruct Hm as (e3 & Hm & ->). inversion Hm; subst.
      destruct Hr as (e2 & Hr & ->). step Hr.
      apply ensure_bucket_inv in Hm0 as [Hf' Hfin'].
      apply calls_finished in Hfin' as Hc'. destruct Hfin'.
      * destruct Hr as (e4 & Hr & ->). inversion Hr; subst.
        rewrite !calls_app, Hc, Hc'. simpl. split; [congruence|]. left. done.
      * destruct Hr as (-> & -> & ->).
        rewrite !calls_app, Hc, Hc'. simpl. split; [congruence|]. right.
        eexists. split; [done|]. right. done.
    + destruct Hm as (-> & -> & ->). destruct Hr as (-> & -> & ->).
      rewrite Hc. split; [done|]. right. eexists. split; [done|]. left. done.
Qed.

Lemma main_cleanup_inv a st blob s o s' ev :
  main_cleanup a st blob s = Run o s' ev →
  files s' = files s ∧ o = Ret tt ∧ cleanup_shape a st blob ev.
Proof.
  unfold main_cleanup, cleanup_shape. destruct (keep_gcs a); simpl; intros Hr.
  - inversion Hr. done.
  - apply try_except_inv in Hr as (o1 & s1 & e1 & Hm & Hr).
    apply delete_blob_inv in Hm as [Hf Hfin].
    apply calls_finished in Hfin as Hc. destruct Hfin as [[] mid _|e mid _].
    + destruct Hr as (-> & -> & ->). eauto.
    + destruct Hr as (e2 & Hr & ->). inversion Hr; subst.
      rewrite calls_app, Hc. simpl. eauto.
Qed.

Lemma ext_inv (x : op) s o s' ev :
  ext x s = Run o s' ev →
  files s' = files s ∧
  ((∃ v, o = Ret v ∧ ev = [Ext x true]) ∨ (∃ e, o = Raise e ∧ ev = [Ext x false])).
Proof.
  unfold ext. destruct (handle x (outside s)) as [[v|e] w];
    intros Hr; inversion Hr; subst; eauto.
Qed.

Lemma ask_inv (q : query) s o s' ev :
  ask q s = Run o s' ev → files s' = files s ∧ ∃ v, o = Ret v ∧ ev = [Ask q].
Proof.
  unfold ask. destruct (answer q (outside s)) as [v w].
  intros Hr; inversion Hr; subst; eauto.
Qed.

Lemma dispatch_inv a pid loc mdl uri s o s' ev :
  (if Str.truthy_opt (api_key a) then
     transcribe_video_genai (from_flag (api_key a) "") pid loc uri mdl default_prompt
   else transcribe_video pid loc mdl uri default_prompt) s = Run o s' ev →
  files s' = files s ∧
  finished
    (if Str.truthy_opt (api_key a) then
       Call_transcribe_video_genai (from_flag (api_key a) "") pid loc uri mdl
         default_prompt
     else Call_transcribe_video pid loc mdl uri default_prompt) Some o ev.
Proof.
  destruct (Str.truthy_opt (api_key a)).
  - apply transcribe_video_genai_inv.
  - apply transcribe_video_inv.
Qed.

Lemma main_transcribe_and_save_inv a pid loc mdl uri fname ob s o s' ev :
  main_transcribe_and_save a pid loc mdl uri fname ob s = Run o s' ev →
  save_shape
    (if Str.truthy_opt (api_key a) then
       Call_transcribe_video_genai (from_flag (api_key a) "") pid loc uri mdl
         default_prompt
     else Call_transcribe_video pid loc mdl uri default_prompt)
    (Call_upload_text_to_gcs ob (sanitize_filename fname))
    (OsPath.join local_output_dir (sanitize_filename fname))
    (files s) o (files s') ev.
Proof.
  unfold main_transcribe_and_save, save_shape. intros Hr.
  unbind Hr as o0 s0 ev0 Hm. apply dispatch_inv in Hm as [Hf0 Hfin].
  apply calls_finished in Hfin as Hc. destruct Hfin as [text mid _|e mid _].
  2:{ destruct Hr as (-> & -> & ->). left. eauto. }
  right. destruct Hr as (ev1 & Hr & ->).
  unbind Hr as o1 s1 ev2 Hm. apply ask_inv in Hm as (Hf1 & found & -> & ->).
  destruct Hr as (ev3 & Hr & ->).
  unbind Hr as o2 s2 ev4 Hm.
  assert (files s2 = files s1 ∧ calls ev4 = [] ∧
          ((∃ u, o2 = Ret u) ∨ ∃ e, o2 = Raise e)) as (Hf2 & Hc2 & Ho).
  { destruct (negb found).
    - apply ext_inv in Hm as (? & [(v & -> & ->)|(e & -> & ->)]); eauto.
    - inversion Hm; subst; eauto. }
  clear Hm. destruct Ho as [[u ->]|[e ->]].
  2:{ destruct Hr as (-> & -> & ->). left. exists text, e.
      rewrite !calls_app, Hc, Hc2. done. }
  destruct Hr as (ev5 & Hr & ->).
  unbind Hr as o3 s3 ev6 Hm.
  apply ext_inv in Hm as (Hf3 & [(v & -> & ->)|(e & -> & ->)]).
  2:{ destruct Hr as (-> & -> & ->). left. exists text, e.
      rewrite !calls_app, Hc, Hc2. done. }
  destruct Hr as (ev7 & Hr & ->).
  unbind Hr as o4 s4 ev8 Hm. inversion Hm; subst; clear Hm.
  destruct Hr as (ev9 & Hr & ->).
  unbind Hr as o5 s5 ev10 Hm.
  apply ext_inv in Hm as (Hf4 & [(v' & -> & ->)|(e & -> & ->)]).
  2:{ destruct Hr as (-> & -> & ->). left. exists text, e.
      rewrite !calls_app, Hc, Hc2. done. }
  destruct Hr as (ev11 & Hr & ->).
  unbind Hr as o6 s6 ev12 Hm. inversion Hm; subst; clear Hm.
  destruct Hr as (ev13 & Hr & ->).
  unbind Hr as o7 s7 ev14 Hm. inversion Hm; subst; clear Hm.
  destruct Hr as (ev15 & Hr & ->).
  apply try_except_inv in Hr as (o8 & s8 & ev16 & Hm & Hr).
  unbind Hm as o9 s9 ev17 Hup. apply upload_text_to_gcs_inv in Hup as [Hf5 Hfin].
  apply calls_finished in Hfin as Hc5.
  simpl in Hf4, Hf5.
  right. exists text.
  destruct Hfin as [uri' mid' _|e mid' _].
  - destruct Hm as (ev18 & Hm & ->). inversion Hm; subst.
    destruct Hr as (-> & -> & ->).
    split; [done|]. split.
    { rewrite Hf5, Hf4, insert_insert_eq. congruence. }
    split.
    { rewrite !in_app_iff. simpl. tauto. }
    left. exists uri'. rewrite !calls_app, Hc, Hc2, Hc5. done.
  - destruct Hm as (-> & -> & ->). destruct Hr as (ev18 & Hr & ->).
    inversion Hr; subst.
    split; [done|]. split.
    { rewrite Hf5, Hf4, insert_insert_eq. congruence. }
    split.
    { rewrite !in_app_iff. simpl. tauto. }
    right. exists e. split.
    + rewrite !calls_app, Hc, Hc2, Hc5. done.
    + unfold upload_warning. rewrite !in_app_iff. simpl. tauto.
Qed.

End Blocks.

(** ** [main], every path *)

Section Main.
Context `{Env}.

Lemma main_inv a s o s' ev :
  main a s = Run o s' ev → main_shape a (files s) o (files s') ev.
Proof.
  unfold main, main_shape. intros Hr.
  unbind Hr as o0 s0 ev0 Hm.
  apply get_gcloud_region_inv in Hm as (Hf0 & region & -> & Hc0).
  destruct Hr as (ev1 & Hr & ->). exists region.
  fold (the_location a region) in Hr. fold (the_model a) in Hr.
  set (loc := the_location a region) in *.
  unbind Hr as o1 s1 ev2 Hm. apply ask_inv in Hm as (Hf1 & found & -> & ->).
  destruct Hr as (ev3 & Hr & ->).
  destruct found; simpl in Hr.
  2:{ left. unbind Hr as o2 s2 ev4 Hm. inversion Hm; subst; clear Hm.
      destruct Hr as (ev5 & Hr & ->). inversion Hr; subst.
      rewrite !calls_app, Hc0. done. }
  unbind Hr as o2 s2 ev4 Hm.
  pose proof (main_infer_project_returns _ _ _ _ _ Hm) as [project_id ->].
  apply main_infer_project_inner in Hm as (Hf2 & Hc2 & _).
  destruct Hr as (ev5 & Hr & ->).
  destruct (negb (Str.truthy_opt project_id) || _).
  { left. unbind Hr as o3 s3 ev6 Hm. inversion Hm; subst; clear Hm.
    destruct Hr as (ev7 & Hr & ->). inversion Hr; subst.
    rewrite !calls_app, Hc0, Hc2. done. }
  right. exists (from_flag project_id ""). set (pid := from_flag project_id "") in *.
  unbind Hr as o3 s3 ev6 Hm. inversion Hm; subst o3 s3 ev6; clear Hm.
  destruct Hr as (ev7 & Hr & ->).
  unbind Hr as o4 s4 ev8 Hm.
  apply main_handle_buckets_inv in Hm as (Hf4 & [(-> & Hc4)|(e & -> & Hc4)]).
  2:{ left. destruct Hr as (-> & -> & ->). exists e, (calls ev8).
      split; [done|]. split; [done|].
      rewrite !calls_app, Hc0, Hc2. done. }
  right. destruct Hr as (ev9 & Hr & ->). simpl in Hr.
  unbind Hr as o5 s5 ev10 Hm. apply (ask_inv Time_time) in Hm as (Hf5 & now & -> & ->).
  destruct Hr as (ev11 & Hr & ->). exists now.
  fold (the_blob_name a now) in Hr. set (blob := the_blob_name a now) in *.
  unbind Hr as o6 s6 ev12 Hm.
  apply try_except_inv in Hm as (o7 & s7 & ev13 & Hup & Hm).
  apply upload_to_gcs_inv in Hup as (Hf7 & Hfin).
  apply calls_finished in Hfin as Hc7. destruct Hfin as [uri mid _|e mid _].
  2:{ left. destruct Hm as (ev14 & Hm & ->).
      unbind Hm as o8 s8 ev15 Hp. inversion Hp; subst o8 s8 ev15; clear Hp.
      destruct Hm as (ev16 & Hm & ->). inversion Hm; subst.
      destruct Hr as (-> & -> & ->). exists e. split; [done|].
      rewrite !calls_app, Hc0, Hc2, Hc4, Hc7. done. }
  right. destruct Hm as (-> & -> & ->). destruct Hr as (ev14 & Hr & ->).
  apply try_finally_inv in Hr as (o8 & s8 & ev15 & o9 & ev16 & Hbody & Hfin & -> & Ho).
  apply main_cleanup_inv in Hfin as (Hf9 & -> & Hclean).
  subst o.
  apply try_except_inv in Hbody as (o10 & s10 & ev17 & Hsave & Hbody).
  apply main_transcribe_and_save_inv in Hsave.
  assert (∃ o1, save_shape
            (the_inference_call a pid loc uri)
            (Call_upload_text_to_gcs (get_output_bucket_name pid)
               (sanitize_filename (OsPath.basename (file_path a))))
            (the_output_path a) (files s) o1 (files s') ev17
          ∧ o8 = match o1 with Ret _ => Ret tt | _ => Exit 1 end
          ∧ calls ev15 = calls ev17 ∧ ∀ x, In x ev17 → In x ev15)
    as (o1 & Hshape & -> & Hc15 & Hin).
  { exists o10.
    assert (files s7 = files s) as Hfs by congruence. rewrite Hfs in Hsave.
    destruct o10 as [[]|e|c].
    - destruct Hbody as (-> & -> & ->). rewrite Hf9. done.
    - destruct Hbody as (ev18 & Hbody & ->).
      unbind Hbody as o11 s11 ev19 Hp. inversion Hp; subst o11 s11 ev19; clear Hp.
      destruct Hbody as (ev20 & Hbody & ->).
      unbind Hbody as o12 s12 ev21 Hp. inversion Hp; subst o12 s12 ev21; clear Hp.
      destruct Hbody as (ev22 & Hbody & ->). inversion Hbody; subst.
      rewrite Hf9. split; [done|]. split; [done|]. split.
      + rewrite !calls_app. simpl. by rewrite app_nil_r.
      + intros x Hx. rewrite in_app_iff. by left.
    - exfalso. destruct Hsave as [(e & ? & _)|[(t & e & ? & _)|(t & ? & _)]];
        discriminate. }
  exists uri, o1, ev17, ev16.
  split.
  { rewrite !calls_app, Hc0, Hc2, Hc4, Hc7, Hc15. done. }
  split; [done|]. split; [done|]. split; [done|].
  intros x Hx. apply Hin in Hx. rewrite !in_app_iff. tauto.
Qed.

End Main.

(** ** Provisioning, dispatch, persistence and cleanup *)

Section Orchestrator.
Context `{Env}.

Lemma filter_calls (p : event → bool) (l : list event) :
  (∀ e, p e = true → is_call_event e = true) →
  List.filter p l = List.filter p (calls l).
Proof.
  intros Hp. induction l as [|e l IH]; simpl; [done|].
  destruct (is_call_event e) eqn:Hc; simpl.
  - by rewrite IH.
  - destruct (p e) eqn:He; [|done]. apply Hp in He. congruence.
Qed.

Lemma delete_entry_is_call e : is_delete_entry e = true → is_call_event e = true.
Proof. by destruct e. Qed.

Lemma ensure_entry_is_call e : is_ensure_entry e = true → is_call_event e = true.
Proof. by destruct e. Qed.


Lemma inference_entry_is_call e :
  is_inference_entry e = true → is_call_event e = true.
Proof. by destruct e. Qed.

(** The run as a whole, in the terms of [main_shape]. *)
Lemma main_run a s :
  main_shape a (files s) (out (main a s)) (files (fin (main a s))) (log (main a s)).
Proof. destruct (main a s) as [o s' ev] eqn:Hr. by apply main_inv. Qed.

End Orchestrator.

(** Case analysis on a membership in an explicit list of events. *)
Ltac in_cases H :=
  simpl in H;
  repeat match type of H with
         | _ ∨ _ => destruct H as [H|H]
         | In _ (_ ++ _) => apply in_app_or in H
         end;
  try contradiction; try discriminate.

(** Unfold the shape of a run into its paths. *)
Ltac main_paths a s :=
  let Hs := fresh "Hshape" in
  pose proof (main_run a s) as Hs;
  destruct Hs as
    (region &
     [(Ho & Hc)
     |(pid &
       [(e & cl & Ho & Hprov & Hc)
       |(now &
         [(e & Ho & Hc)
         |(uri & o1 & ev1 & ev2 & Hc & Hsave & Hclean & Ho & Hsub)])])]).

Section Claims.
Context `{Env}.

(** C1.  In every run whose upload returned, that is, whose staged blob
    was created, and where [--keep-gcs] is not set, [delete_blob] is
    entered exactly once, on the bucket and blob name of that upload,
    whatever the world made of transcription and persistence; with
    [--keep-gcs], [delete_blob] is never entered. *)
Theorem delete_blob_exactly_once (a : args) (s : state) :
  (keep_gcs a = true → List.filter is_delete_entry (log (main a s)) = [])
  ∧ (keep_gcs a = false →
     ∀ b p n uri,
       In (Return (Call_upload_to_gcs b p n) (Some uri)) (log (main a s)) →
       List.filter is_delete_entry (log (main a s))
       = [Enter (Call_delete_blob b n)]).
Proof.
  assert (∀ b p n uri,
    In (Return (Call_upload_to_gcs b p n) (Some uri)) (log (main a s)) →
    In (Return (Call_upload_to_gcs b p n) (Some uri)) (calls (log (main a s))))
    as Hup by (intros; by apply in_calls).
  rewrite (filter_calls _ _ delete_entry_is_call).
  main_paths a s; rewrite Hc.
  - split; [done|]. intros _ b p n u Hin%Hup. rewrite Hc in Hin. in_cases Hin.
  - unfold provision_failure in Hprov.
    destruct (Str.truthy_opt (bucket a)), Hprov as [(? & ->)| ->];
      (split; [done|]); intros _ b p n u Hin%Hup; rewrite Hc in Hin;
      in_cases Hin.
  - unfold ensured_buckets in *.
    destruct (Str.truthy_opt (bucket a));
      (split; [done|]); intros _ b p n u Hin%Hup; rewrite Hc in Hin;
      in_cases Hin.
  - unfold ensured_buckets, save_shape, cleanup_shape, the_inference_call in *.
    destruct (Str.truthy_opt (bucket a)), (Str.truthy_opt (api_key a)),
      (keep_gcs a);
      destruct Hsave as [(e & _ & Hc1 & _)|[(t & e & _ & Hc1)
        |(t & _ & _ & _ & [(u' & Hc1)|(e & Hc1 & _)])]];
      try destruct Hclean as [Hc2|(e' & Hc2)]; rewrite ?Hclean, ?Hc1, ?Hc2 in *;
      (split; [done|]); intros Hk b p n u Hin%Hup; try discriminate;
      rewrite Hc in Hin; in_cases Hin; by inversion Hin.
Qed.


(** Which inference function a run enters: none before the upload has
    returned, and after it the one [the_inference_call] names, once. *)
Lemma inference_dispatch (a : args) (s : state) :
  (List.filter is_inference_entry (log (main a s)) = []
   ∧ ∀ b p n uri,
       ¬ In (Return (Call_upload_to_gcs b p n) (Some uri)) (log (main a s)))
  ∨ ∃ pid region uri,
      List.filter is_inference_entry (log (main a s))
      = [Enter (the_inference_call a pid (the_location a region) uri)]
      ∧ ∀ b p n uri',
          In (Return (Call_upload_to_gcs b p n) (Some uri')) (log (main a s)) →
          uri' = uri.
Proof.
  assert (∀ b p n uri,
    In (Return (Call_upload_to_gcs b p n) (Some uri)) (log (main a s)) →
    In (Return (Call_upload_to_gcs b p n) (Some uri)) (calls (log (main a s))))
    as Hup by (intros; by apply in_calls).
  rewrite (filter_calls _ _ inference_entry_is_call).
  main_paths a s; rewrite Hc.
  - left. split; [done|]. intros b p n u Hin%Hup. rewrite Hc in Hin. in_cases Hin.
  - left. unfold provision_failure in Hprov.
    destruct (Str.truthy_opt (bucket a)), Hprov as [(? & ->)| ->];
      (split; [done|]); intros b p n u Hin%Hup; rewrite Hc in Hin;
      in_cases Hin.
  - left. unfold ensured_buckets in *.
    destruct (Str.truthy_opt (bucket a));
      (split; [done|]); intros b p n u Hin%Hup; rewrite Hc in Hin;
      in_cases Hin.
  - right. exists pid, region, uri.
    unfold ensured_buckets, save_shape, cleanup_shape, the_inference_call in *.
    destruct (Str.truthy_opt (bucket a)), (Str.truthy_opt (api_key a)),
      (keep_gcs a);
      destruct Hsave as [(e & _ & Hc1 & _)|[(t & e & _ & Hc1)
        |(t & _ & _ & _ & [(u' & Hc1)|(e & Hc1 & _)])]];
      try destruct Hclean as [Hc2|(e' & Hc2)]; rewrite ?Hclean, ?Hc1, ?Hc2 in *;
      (split; [done|]); intros b p n u Hin%Hup;
      rewrite Hc in Hin; in_cases Hin; by inversion Hin.
Qed.

(** A run in which no upload returned enters no inference function. *)
Lemma inference_needs_upload (a : args) (s : state) :
  (∀ b p n uri,
     ¬ In (Return (Call_upload_to_gcs b p n) (Some uri)) (log (main a s))) →
  List.filter is_inference_entry (log (main a s)) = [].
Proof.
  intros Hno.
  rewrite (filter_calls _ _ inference_entry_is_call).
  main_paths a s; rewrite Hc.
  - done.
  - unfold provision_failure in Hprov.
    by destruct (Str.truthy_opt (bucket a)), Hprov as [(? & ->)| ->].
  - unfold ensured_buckets. by destruct (Str.truthy_opt (bucket a)).
  - exfalso.
    apply (Hno (the_staging_bucket a pid (the_location a region)) (file_path a)
             (the_blob_name a now) uri).
    apply (calls_in _ (log (main a s))). rewrite Hc.
    apply in_or_app. right. apply in_or_app. right. simpl. auto.
Qed.

(** C5 (amended).  No run enters more than one inference function; a run
    whose upload returned enters exactly one: [transcribe_video_genai]
    when the API key is a non-empty string, [transcribe_video] when it is
    absent or empty, in both cases on the URI the upload returned; and a
    run in which no upload returned, because it stopped before that stage,
    enters neither. *)
Theorem one_inference_variant (a : args) (s : state) :
  (List.length (List.filter is_inference_entry (log (main a s))) ≤ 1)%nat
  ∧ (∀ b p n uri,
       In (Return (Call_upload_to_gcs b p n) (Some uri)) (log (main a s)) →
       (Str.truthy_opt (api_key a) = true →
        ∃ pid loc,
          List.filter is_inference_entry (log (main a s))
          = [Enter (Call_transcribe_video_genai (from_flag (api_key a) "")
                      pid loc uri (the_model a) default_prompt)])
       ∧ (Str.truthy_opt (api_key a) = false →
          ∃ pid loc,
            List.filter is_inference_entry (log (main a s))
            = [Enter (Call_transcribe_video pid loc (the_model a) uri
                        default_prompt)]))
  ∧ ((∀ b p n uri,
        ¬ In (Return (Call_upload_to_gcs b p n) (Some uri)) (log (main a s))) →
     List.filter is_inference_entry (log (main a s)) = []).
Proof.
  split; [|split; [|apply inference_needs_upload]].
  - destruct (inference_dispatch a s)
      as [(Hnone & Hno)|(pid & region & u & Hone & Hu)].
    + rewrite Hnone. simpl; lia.
    + rewrite Hone. simpl; lia.
  - destruct (inference_dispatch a s)
      as [(Hnone & Hno)|(pid & region & u & Hone & Hu)].
    + intros b p n uri Hin. by destruct (Hno _ _ _ _ Hin).
    + rewrite Hone. intros b p n uri Hin.
      apply Hu in Hin as ->. unfold the_inference_call.
      split; intros ->; eauto.
Qed.

(** C9.  With [--api-key] given as the empty string, no run enters
    [transcribe_video_genai], and a run whose upload returned enters
    [transcribe_video], once: the dispatch is on the truth value of the key. *)
Theorem empty_api_key_runs_variant_a (a : args) (s : state) :
  api_key a = Some "" →
  (∀ k pid loc uri m q,
     ¬ In (Enter (Call_transcribe_video_genai k pid loc uri m q)) (log (main a s)))
  ∧ ∀ b p n uri,
      In (Return (Call_upload_to_gcs b p n) (Some uri)) (log (main a s)) →
      ∃ pid loc,
        List.filter is_inference_entry (log (main a s))
        = [Enter (Call_transcribe_video pid loc (the_model a) uri default_prompt)].
Proof.
  intros Hkey.
  destruct (inference_dispatch a s) as [(Hnone & Hno)|(pid & region & u & Hone & Hu)].
  - split.
    + intros k pid loc uri m q Hin.
      assert (In (Enter (Call_transcribe_video_genai k pid loc uri m q))
                (List.filter is_inference_entry (log (main a s)))) as Hf
        by (apply List.filter_In; done).
      rewrite Hnone in Hf. destruct Hf.
    + intros b p n uri Hin. by destruct (Hno _ _ _ _ Hin).
  - unfold the_inference_call in Hone. rewrite Hkey in Hone. simpl in Hone.
    split.
    + intros k pid' loc uri m q Hin.
      assert (In (Enter (Call_transcribe_video_genai k pid' loc uri m q))
                (List.filter is_inference_entry (log (main a s)))) as Hf
        by (apply List.filter_In; done).
      rewrite Hone in Hf. in_cases Hf.
    + intros b p n uri Hin. apply Hu in Hin as ->. eauto.
Qed.

(** C4.  In a run where the inference function returned a text, the local
    write went through and [upload_text_to_gcs] raised, the exception ends
    as the warning on stdout, the exit status is 0, and the file at the
    local output path (the output directory next to the script's parent,
    joined with [sanitize_filename] of the source's basename) holds exactly
    the text the inference function returned, which is also what the mirror
    was asked to upload under the sanitized name. *)
Theorem mirror_failure_is_a_warning (a : args) (s : state)
    (inf : call) (text : string) (ob name content : string) (err : exn) :
  is_inference_entry (Enter inf) = true →
  In (Return inf (Some text)) (log (main a s)) →
  In (Ext (File_write (the_output_path a) text) true) (log (main a s)) →
  In (Raised (Call_upload_text_to_gcs ob name content) err) (log (main a s)) →
  out (main a s) = Ret tt
  ∧ exit_code (out (main a s)) = 0
  ∧ In (upload_warning err) (log (main a s))
  ∧ files (fin (main a s)) !! the_output_path a = Some text
  ∧ name = sanitize_filename (OsPath.basename (file_path a))
  ∧ content = text.
Proof.
  intros Hinf Hret%in_calls Hw Hmirror%in_calls; [|done|done].
  main_paths a s; rewrite Hc in *.
  - in_cases Hmirror.
  - unfold provision_failure in Hprov.
    destruct (Str.truthy_opt (bucket a)), Hprov as [(? & ->)| ->];
      in_cases Hmirror.
  - unfold ensured_buckets in *.
    destruct (Str.truthy_opt (bucket a)); in_cases Hmirror.
  - assert (o1 = Ret tt ∧ In (upload_warning err) ev1
            ∧ files (fin (main a s)) = <[the_output_path a := text]> (files s)
            ∧ name = sanitize_filename (OsPath.basename (file_path a))
            ∧ content = text) as (-> & Hwarn & Hfiles & -> & ->).
    { unfold ensured_buckets, save_shape, cleanup_shape, the_inference_call in *.
      destruct (Str.truthy_opt (bucket a)), (Str.truthy_opt (api_key a)),
        (keep_gcs a);
        destruct Hsave as [(e1 & _ & Hc1 & _)|[(t & e1 & _ & Hc1)
          |(t & Ho1 & Hf1 & _ & [(u' & Hc1)|(e1 & Hc1 & Hwarn)])]];
        try destruct Hclean as [Hc2|(e' & Hc2)];
        rewrite ?Hclean, ?Hc1, ?Hc2 in *;
        in_cases Hmirror; inversion Hmirror; subst;
        in_cases Hret; inversion Hret; subst; done. }
    rewrite Ho, Hfiles, lookup_insert_eq. auto 10.
Qed.


Lemma first_split {A} (p : A → bool) (l1 : list A) x l2 l1' x' l2' :
  l1 ++ x :: l2 = l1' ++ x' :: l2' →
  List.filter p l1 = [] → List.filter p l1' = [] →
  p x = true → p x' = true →
  l1 = l1' ∧ x = x' ∧ l2 = l2'.
Proof.
  revert l1'. induction l1 as [|y l1 IH]; intros [|y' l1'] Heq H1 H1' Hx Hx';
    simpl in *.
  - by inversion Heq.
  - inversion Heq; subst. rewrite Hx in H1'. discriminate.
  - inversion Heq; subst. rewrite Hx' in H1. discriminate.
  - injection Heq as -> Heq.
    destruct (p y') eqn:Hy; [discriminate|].
    destruct (IH l1' Heq H1 H1' Hx Hx') as (-> & -> & ->). done.
Qed.

(** Where [upload_to_gcs] is entered: at most once, and then right after
    the calls of a provisioning that went through. *)
Lemma upload_position (a : args) (s : state) :
  List.filter is_upload_entry (calls (log (main a s))) = []
  ∨ ∃ pid region now rest,
      let loc := the_location a region in
      calls (log (main a s))
      = (returned Call_get_gcloud_region region ++ ensured_buckets a pid loc)
        ++ Enter (Call_upload_to_gcs (the_staging_bucket a pid loc)
                    (file_path a) (the_blob_name a now)) :: rest
      ∧ List.filter is_upload_entry rest = [].
Proof.
  main_paths a s; rewrite Hc.
  - by left.
  - left. unfold provision_failure in Hprov.
    by destruct (Str.truthy_opt (bucket a)), Hprov as [(? & ->)| ->].
  - right. exists pid, region, now. eexists. split.
    + rewrite <- app_assoc. reflexivity.
    + reflexivity.
  - right. exists pid, region, now. eexists. split.
    + rewrite <- app_assoc. reflexivity.
    + unfold save_shape, cleanup_shape, the_inference_call in *.
      destruct (Str.truthy_opt (api_key a)), (keep_gcs a);
        destruct Hsave as [(e & _ & Hc1 & _)|[(t & e & _ & Hc1)
          |(t & _ & _ & _ & [(u' & Hc1)|(e & Hc1 & _)])]];
        try destruct Hclean as [Hc2|(e' & Hc2)];
        rewrite ?Hclean, ?Hc1, ?Hc2; reflexivity.
Qed.

(** C2 (amended).  Whenever a run enters [upload_to_gcs], the bucket of
    the upload is the staging bucket (the non-empty [--bucket], else the
    name derived from project and region), and the [ensure_bucket] calls
    entered before it are, in order: one on the derived staging bucket,
    only when there is no non-empty [--bucket], and one on the derived
    output bucket.  An explicit staging bucket is used as given, without
    [ensure_bucket]. *)
Theorem buckets_ensured_before_upload (a : args) (s : state)
    (pre post : list event) (b p n : string) :
  log (main a s) = pre ++ Enter (Call_upload_to_gcs b p n) :: post →
  ∃ pid region,
    let loc := the_location a region in
    b = the_staging_bucket a pid loc
    ∧ List.filter is_ensure_entry pre
      = (if Str.truthy_opt (bucket a) then []
         else [Enter (Call_ensure_bucket (get_staging_bucket_name pid loc) loc)])
        ++ [Enter (Call_ensure_bucket (get_output_bucket_name pid) loc)].
Proof.
  intros Hlog.
  assert (calls (log (main a s))
          = calls pre ++ Enter (Call_upload_to_gcs b p n) :: calls post) as Hsplit.
  { rewrite Hlog, calls_app. done. }
  destruct (upload_position a s) as [Hnone|(pid & region & now & rest & Hshape & Hrest)].
  - rewrite Hsplit, List.filter_app in Hnone. simpl in Hnone.
    by destruct (List.filter is_upload_entry (calls pre)).
  - exists pid, region. cbv zeta in Hshape. rewrite Hsplit in Hshape.
    assert (List.filter is_upload_entry (calls pre) = []) as Hpre.
    { apply (f_equal (List.filter is_upload_entry)) in Hshape.
      rewrite !List.filter_app in Hshape. simpl in Hshape.
      rewrite Hrest in Hshape. unfold ensured_buckets in Hshape.
      destruct (Str.truthy_opt (bucket a)); simpl in Hshape;
        destruct (List.filter is_upload_entry (calls pre)) as [|x [|y l]];
        try done; inversion Hshape. }
    apply (first_split is_upload_entry) in Hshape as (Hcp & Hup & _);
      [|done| |done|done].
    2:{ unfold ensured_buckets. by destruct (Str.truthy_opt (bucket a)). }
    inversion Hup; subst. cbv zeta. split; [done|].
    rewrite (filter_calls _ _ ensure_entry_is_call), Hcp.
    unfold ensured_buckets. by destruct (Str.truthy_opt (bucket a)).
Qed.

End Claims.

(** ** The claims on the scripted world *)

Ltac pick_member := repeat first [left; reflexivity | right].

Lemma delete_blob_exactly_once_witness :
  List.filter is_delete_entry (log (mock_run sunny keep_args)) = []
  ∧ List.filter is_delete_entry (log (mock_run sunny plain_args))
    = [Enter (Call_delete_blob
                "gemini-transcriber-example-com-my-proj-us-central1"
                "gemini-transcriber-staging/1700000000_Clip One.mp4")].
Proof.
  split.
  - apply (proj1 (@delete_blob_exactly_once (mock_env sunny) keep_args
                    (mock_start sunny))).
    reflexivity.
  - eapply (proj2 (@delete_blob_exactly_once (mock_env sunny) plain_args
                     (mock_start sunny))).
    + reflexivity.
    + vm_compute. pick_member.
Defined.

(** C2, as stated, fails: with [--bucket my-staging] the upload goes to
    [my-staging] and [ensure_bucket] was never entered on it. *)
Lemma explicit_bucket_not_ensured :
  ¬ staging_ensured_before_upload (log (mock_run sunny explicit_bucket_args)).
Proof.
  intros Hclaim.
  pose (l := log (mock_run sunny explicit_bucket_args)).
  assert (∃ pre post,
    l = pre ++ Enter (Call_upload_to_gcs "my-staging" "in/Clip One.mp4"
                        "gemini-transcriber-staging/1700000000_Clip One.mp4")
                 :: post ∧ List.length pre = 14%nat)
    as (pre & post & Hl & Hlen).
  { exists (List.firstn 14 l), (List.skipn 15 l). vm_compute. done. }
  destruct (Hclaim _ _ _ _ _ Hl) as [loc Hin].
  assert (In (Enter (Call_ensure_bucket "my-staging" loc)) l) as Hin'.
  { rewrite Hl. apply in_or_app. by left. }
  vm_compute in Hin'.
  repeat (destruct Hin' as [Hin'|Hin']; [discriminate|]). done.
Qed.

Lemma buckets_ensured_before_upload_witness :
  ∃ pid region,
    "my-staging" = the_staging_bucket explicit_bucket_args pid
                     (the_location explicit_bucket_args region)
    ∧ List.filter is_ensure_entry
        (List.firstn 14 (log (mock_run sunny explicit_bucket_args)))
      = [Enter (Call_ensure_bucket (get_output_bucket_name pid)
                  (the_location explicit_bucket_args region))].
Proof.
  apply (@buckets_ensured_before_upload (mock_env sunny) explicit_bucket_args
           (mock_start sunny) _
           (List.skipn 15 (log (mock_run sunny explicit_bucket_args)))
           "my-staging" "in/Clip One.mp4"
           "gemini-transcriber-staging/1700000000_Clip One.mp4").
  vm_compute. reflexivity.
Defined.

(** C5, as stated, fails: a run whose upload raises enters no inference
    function at all. *)
Lemma no_inference_after_failed_upload :
  ¬ exactly_one_inference (log (mock_run upload_raises plain_args)).
Proof. intros [e He]. vm_compute in He. discriminate. Qed.

Lemma one_inference_variant_witness :
  (∃ pid loc,
     List.filter is_inference_entry (log (mock_run sunny key_args))
     = [Enter (Call_transcribe_video_genai "k-123" pid loc
                 "gs://gemini-transcriber-example-com-my-proj-us-central1/gemini-transcriber-staging/1700000000_Clip One.mp4"
                 "gemini-2.5-pro" default_prompt)])
  ∧ (∃ pid loc,
       List.filter is_inference_entry (log (mock_run sunny plain_args))
       = [Enter (Call_transcribe_video pid loc "gemini-2.5-pro"
                   "gs://gemini-transcriber-example-com-my-proj-us-central1/gemini-transcriber-staging/1700000000_Clip One.mp4"
                   default_prompt)])
  ∧ List.filter is_inference_entry (log (mock_run upload_raises plain_args)) = [].
Proof.
  split; [|split].
  - eapply (proj1 (proj2 (@one_inference_variant (mock_env sunny) key_args
                            (mock_start sunny)))).
    + vm_compute. pick_member.
    + reflexivity.
  - eapply (proj1 (proj2 (@one_inference_variant (mock_env sunny) plain_args
                            (mock_start sunny)))).
    + vm_compute. pick_member.
    + reflexivity.
  - apply (proj2 (proj2 (@one_inference_variant (mock_env upload_raises)
                           plain_args (mock_start upload_raises)))).
    intros b p n uri Hin. vm_compute in Hin.
    repeat (destruct Hin as [Hin|Hin]; [discriminate Hin|]). exact Hin.
Defined.

Lemma empty_api_key_runs_variant_a_witness :
  ∃ pid loc,
    List.filter is_inference_entry (log (mock_run sunny empty_key_args))
    = [Enter (Call_transcribe_video pid loc "gemini-2.5-pro"
                "gs://gemini-transcriber-example-com-my-proj-us-central1/gemini-transcriber-staging/1700000000_Clip One.mp4"
                default_prompt)].
Proof.
  eapply (proj2 (@empty_api_key_runs_variant_a (mock_env sunny) empty_key_args
                   (mock_start sunny) eq_refl)).
  vm_compute. pick_member.
Defined.

Lemma mirror_failure_is_a_warning_witness :
  exit_code (out (mock_run mirror_raises plain_args)) = 0
  ∧ files (fin (mock_run mirror_raises plain_args))
      !! "/opt/app/workspace/output/clip_one.txt" = Some "Hello world".
Proof.
  pose proof (@mirror_failure_is_a_warning (mock_env mirror_raises) plain_args
                (mock_start mirror_raises)
                (Call_transcribe_video "example.com:my-proj" "us-central1"
                   "gemini-2.5-pro"
                   "gs://gemini-transcriber-example-com-my-proj-us-central1/gemini-transcriber-staging/1700000000_Clip One.mp4"
                   default_prompt)
                "Hello world" "example-com-my-proj-gemini-video-transcribe"
                "clip_one.txt" "Hello world" "boom") as Hw.
  destruct Hw as (_ & Hcode & _ & Hfile & _).
  - reflexivity.
  - vm_compute. pick_member.
  - vm_compute. pick_member.
  - vm_compute. pick_member.
  - split; [exact Hcode|exact Hfile].
Defined.

(** ** Accumulating the stream *)

Section Streams.
Context `{Env}.

Lemma str_append_cons (x : ascii) (a b : string) :
  String x a +:+ b = String x (a +:+ b).
Proof. reflexivity. Qed.

Lemma str_append_assoc (a b c : string) : (a +:+ b) +:+ c = a +:+ (b +:+ c).
Proof.
  induction a as [|x a IH]; [done|]. by rewrite !str_append_cons, IH.
Qed.

Lemma str_append_empty_r (a : string) : a +:+ "" = a.
Proof. induction a as [|x a IH]; [done|]. by rewrite str_append_cons, IH. Qed.

Lemma joined_kept_texts (ts : list string) :
  joined (kept (List.map Some ts)) = joined ts.
Proof.
  induction ts as [|t ts IH]; simpl; [done|].
  destruct t; simpl; by rewrite IH.
Qed.

Lemma kept_nonempty_texts (ts : list string) :
  List.Forall (λ t, Str.truthy t = true) ts → kept (List.map Some ts) = ts.
Proof.
  induction 1 as [|t ts' Ht _ IH]; simpl; [done|].
  rewrite Ht. simpl. by rewrite IH.
Qed.

(** The loop of [transcribe_video] on fragments that all have a text. *)
Lemma loop_all (ts : list string) (acc : string) (s : state) :
  for_each (stream_of (List.map Some ts)) acc
    (λ full_text text_chunk,
       print_end (show_fragment text_chunk) ;;'
       match text_chunk with
       | Some t => ret (full_text +:+ t)
       | None => raise concat_none_error
       end) s
  = Run (Ret (acc +:+ joined ts)) s (consumed_all ts).
Proof.
  revert acc. induction ts as [|t ts IH]; intros acc; simpl.
  - by rewrite str_append_empty_r.
  - unfold bind at 1 2 3. simpl. rewrite IH. unfold prepend; simpl.
    by rewrite str_append_assoc.
Qed.

(** The loop of [transcribe_video_genai] on any fragments. *)
Lemma loop_kept (fs : list fragment) (acc : string) (s : state) :
  for_each (stream_of fs) acc
    (λ full_text chunk,
       match chunk with
       | Some t =>
           if Str.truthy t then print_end t ;;' ret (full_text +:+ t)
           else ret full_text
       | None => ret full_text
       end) s
  = Run (Ret (acc +:+ joined (kept fs))) s (consumed_kept fs).
Proof.
  unfold consumed_kept.
  revert acc. induction fs as [|[t|] fs IH]; intros acc; simpl.
  - by rewrite str_append_empty_r.
  - unfold bind at 1 2. simpl. destruct (Str.truthy t) eqn:Ht; simpl.
    + rewrite IH. unfold prepend; simpl. by rewrite str_append_assoc.
    + rewrite IH. done.
  - unfold bind at 1 2. simpl. rewrite IH. done.
Qed.

(** [transcribe_video] against services that answer with the texts [ts]. *)
Lemma transcribe_video_run p l m u q (ts : list string) s w1 w2 w3 :
  handle (Vertexai_init p l) (outside s) = (Ok tt, w1) →
  handle (GenerativeModel m) w1 = (Ok tt, w2) →
  handle (Model_generate_content m u q) w2
  = (Ok (stream_of (List.map Some ts)), w3) →
  transcribe_video p l m u q s
  = Run (Ret (joined ts)) (State _ w3 (files s)) (transcribe_video_log p l m u q ts).
Proof.
  intros H1 H2 H3. unfold transcribe_video, traced, transcribe_video_log.
  unfold bind, ext, print, emit. simpl. rewrite H1. simpl. rewrite H2. simpl.
  rewrite H3. simpl. rewrite loop_all. simpl.
  rewrite <- ?app_assoc. simpl. rewrite ?str_append_assoc. done.
Qed.

(** [transcribe_video_genai] against services that answer with the
    fragments [fs]. *)
Lemma transcribe_video_genai_run k p l u m q (fs : list fragment) s w1 w2 :
  handle (Genai_Client k) (outside s) = (Ok tt, w1) →
  handle (Models_generate_content_stream m u q) w1 = (Ok (stream_of fs), w2) →
  transcribe_video_genai k p l u m q s
  = Run (Ret (joined (kept fs))) (State _ w2 (files s))
      (transcribe_video_genai_log k p l u m q fs).
Proof.
  intros H1 H2. unfold transcribe_video_genai, traced, transcribe_video_genai_log.
  unfold bind, ext, print, emit. simpl. rewrite H1. simpl.
  rewrite H2. simpl. rewrite loop_kept. simpl.
  rewrite <- ?app_assoc. simpl. rewrite ?str_append_assoc. done.
Qed.

(** C6.  Served the texts [ts], both inference functions return their
    concatenation in arrival order, and their logs show every fragment
    asked for and then observed before the next one is asked for; for
    the fragments Hel, lo , world the result is Hello world. *)
Theorem fragments_accumulate_in_order (ts : list string)
    (k p l m u q : string) (sa sb : state) (w1 w2 w3 v1 v2 : world) :
  handle (Vertexai_init p l) (outside sa) = (Ok tt, w1) →
  handle (GenerativeModel m) w1 = (Ok tt, w2) →
  handle (Model_generate_content m u q) w2
  = (Ok (stream_of (List.map Some ts)), w3) →
  handle (Genai_Client k) (outside sb) = (Ok tt, v1) →
  handle (Models_generate_content_stream m u q) v1
  = (Ok (stream_of (List.map Some ts)), v2) →
  (out (transcribe_video p l m u q sa) = Ret (joined ts)
   ∧ log (transcribe_video p l m u q sa) = transcribe_video_log p l m u q ts)
  ∧ (out (transcribe_video_genai k p l u m q sb) = Ret (joined ts)
     ∧ log (transcribe_video_genai k p l u m q sb)
       = transcribe_video_genai_log k p l u m q (List.map Some ts))
  ∧ joined hello = "Hello world"
  ∧ consumed_all hello
    = [Next (Some (Ok (Some "Hel"))); Print "Hel";
       Next (Some (Ok (Some "lo "))); Print "lo ";
       Next (Some (Ok (Some "world"))); Print "world";
       Next None]
  ∧ consumed_kept (List.map Some hello) = consumed_all hello.
Proof.
  intros A1 A2 A3 B1 B2.
  rewrite (transcribe_video_run _ _ _ _ _ _ _ _ _ _ A1 A2 A3).
  rewrite (transcribe_video_genai_run _ _ _ _ _ _ _ _ _ _ B1 B2).
  simpl. rewrite joined_kept_texts. done.
Qed.

(** C10.  [transcribe_video_genai] returns the concatenation, in arrival
    order, of the texts of the fragments whose text is a non-empty string,
    skipping the empty and the [None] ones; [transcribe_video] returns the
    concatenation of all the texts it is served; on a stream without empty
    fragments the two return the same text. *)
Theorem variants_agree_without_empty_fragments
    (fs : list fragment) (ts : list string)
    (k p l m u q : string) (sa sb sc : state) (w1 w2 w3 v1 v2 x1 x2 : world) :
  (handle (Genai_Client k) (outside sb) = (Ok tt, v1) →
   handle (Models_generate_content_stream m u q) v1 = (Ok (stream_of fs), v2) →
   out (transcribe_video_genai k p l u m q sb) = Ret (joined (kept fs)))
  ∧ (handle (Vertexai_init p l) (outside sa) = (Ok tt, w1) →
     handle (GenerativeModel m) w1 = (Ok tt, w2) →
     handle (Model_generate_content m u q) w2
     = (Ok (stream_of (List.map Some ts)), w3) →
     out (transcribe_video p l m u q sa) = Ret (joined ts)
     ∧ (handle (Genai_Client k) (outside sc) = (Ok tt, x1) →
        handle (Models_generate_content_stream m u q) x1
        = (Ok (stream_of (List.map Some ts)), x2) →
        List.Forall (λ t, Str.truthy t = true) ts →
        kept (List.map Some ts) = ts
        ∧ out (transcribe_video_genai k p l u m q sc)
          = out (transcribe_video p l m u q sa))).
Proof.
  split.
  - intros B1 B2.
    by rewrite (transcribe_video_genai_run _ _ _ _ _ _ _ _ _ _ B1 B2).
  - intros A1 A2 A3.
    rewrite (transcribe_video_run _ _ _ _ _ _ _ _ _ _ A1 A2 A3).
    split; [done|]. intros C1 C2 Hne.
    rewrite (transcribe_video_genai_run _ _ _ _ _ _ _ _ _ _ C1 C2). simpl.
    by rewrite (kept_nonempty_texts _ Hne).
Qed.

End Streams.

Lemma fragments_accumulate_in_order_witness :
  out (@transcribe_video (mock_env sunny) "proj" "us-central1" "gemini-2.5-pro"
         "gs://b/n" default_prompt (mock_start sunny))
  = Ret "Hello world"
  ∧ out (@transcribe_video_genai (mock_env sunny) "k-123" "proj" "us-central1"
           "gs://b/n" "gemini-2.5-pro" default_prompt (mock_start sunny))
    = Ret "Hello world".
Proof.
  pose proof (@fragments_accumulate_in_order (mock_env sunny) hello
                "k-123" "proj" "us-central1" "gemini-2.5-pro" "gs://b/n"
                default_prompt (mock_start sunny) (mock_start sunny)
                tt tt tt tt tt eq_refl eq_refl eq_refl eq_refl eq_refl)
    as ((Ha & _) & (Hb & _) & _).
  split; [exact Ha|exact Hb].
Defined.

Lemma variants_agree_without_empty_fragments_witness :
  out (@transcribe_video_genai (mock_env (with_responses sunny (stream_of gappy)))
         "k-123" "proj" "us-central1" "gs://b/n" "gemini-2.5-pro" default_prompt
         (mock_start _))
  = Ret "Hello"
  ∧ out (@transcribe_video_genai (mock_env sunny) "k-123" "proj" "us-central1"
           "gs://b/n" "gemini-2.5-pro" default_prompt (mock_start sunny))
    = out (@transcribe_video (mock_env sunny) "proj" "us-central1"
             "gemini-2.5-pro" "gs://b/n" default_prompt (mock_start sunny)).
Proof.
  split.
  - exact (proj1 (@variants_agree_without_empty_fragments
                    (mock_env (with_responses sunny (stream_of gappy)))
                    gappy [] "k-123" "proj" "us-central1" "gemini-2.5-pro"
                    "gs://b/n" default_prompt (mock_start _) (mock_start _)
                    (mock_start _) tt tt tt tt tt tt tt) eq_refl eq_refl).
  - refine (proj2 (proj2 (proj2 (@variants_agree_without_empty_fragments
                    (mock_env sunny)
                    [] hello "k-123" "proj" "us-central1" "gemini-2.5-pro"
                    "gs://b/n" default_prompt (mock_start _) (mock_start _)
                    (mock_start _) tt tt tt tt tt tt tt)
                    eq_refl eq_refl eq_refl) eq_refl eq_refl _)).
    repeat constructor.
Defined.

(** ** Strings and paths *)

Section Strings.

Lemma chars_append (a b : string) : Str.chars (a +:+ b) = Str.chars a ++ Str.chars b.
Proof.
  induction a as [|x a IH]; [done|].
  change (String x a +:+ b) with (String x (a +:+ b)). simpl. by rewrite IH.
Qed.

Lemma chars_map (f : ascii → ascii) (s : string) :
  Str.chars (Str.map f s) = List.map f (Str.chars s).
Proof. induction s as [|x s IH]; simpl; [done|by rewrite IH]. Qed.

Lemma contains_append (c : ascii) (a b : string) :
  Str.contains c (a +:+ b) = Str.contains c a || Str.contains c b.
Proof. unfold Str.contains. by rewrite chars_append, existsb_app. Qed.

Lemma contains_map (c : ascii) (f : ascii → ascii) (s : string) :
  (∀ a, Ascii.eqb c (f a) = Ascii.eqb c a) →
  Str.contains c (Str.map f s) = Str.contains c s.
Proof.
  intros Hf. unfold Str.contains. rewrite chars_map.
  induction (Str.chars s) as [|x l IH]; simpl; [done|]. by rewrite Hf, IH.
Qed.

Lemma contains_map_none (c : ascii) (f : ascii → ascii) (s : string) :
  (∀ a, Ascii.eqb c (f a) = false) → Str.contains c (Str.map f s) = false.
Proof.
  intros Hf. unfold Str.contains. rewrite chars_map.
  induction (Str.chars s) as [|x l IH]; simpl; [done|]. by rewrite Hf, IH.
Qed.

Lemma lower_char_colon (a : ascii) :
  Ascii.eqb ":" (Str.lower_char a) = Ascii.eqb ":" a.
Proof. by destruct a as [[] [] [] [] [] [] [] []]. Qed.

Lemma lower_char_dot (a : ascii) :
  Ascii.eqb "." (Str.lower_char a) = Ascii.eqb "." a.
Proof. by destruct a as [[] [] [] [] [] [] [] []]. Qed.

Lemma lower_char_not_upper (a : ascii) : Str.is_upper (Str.lower_char a) = false.
Proof. by destruct a as [[] [] [] [] [] [] [] []]. Qed.

Lemma is_lower_append (a b : string) :
  Str.is_lower (a +:+ b) = Str.is_lower a && Str.is_lower b.
Proof. unfold Str.is_lower. by rewrite chars_append, forallb_app. Qed.

Lemma is_lower_lower (s : string) : Str.is_lower (Str.lower s) = true.
Proof.
  unfold Str.is_lower, Str.lower. rewrite chars_map.
  induction (Str.chars s) as [|x l IH]; simpl; [done|].
  by rewrite lower_char_not_upper, IH.
Qed.

(** The project part of both bucket names has neither colon nor dot. *)
Lemma safe_project_clean (project_id : string) :
  let safe_project :=
    Str.lower (Str.replace "." "-" (Str.replace ":" "-" project_id)) in
  Str.contains ":" safe_project = false ∧ Str.contains "." safe_project = false.
Proof.
  simpl. unfold Str.lower. split.
  - rewrite (contains_map _ _ _ lower_char_colon). unfold Str.replace.
    rewrite contains_map.
    + apply contains_map_none. intros a.
      by destruct a as [[] [] [] [] [] [] [] []].
    + intros a. by destruct a as [[] [] [] [] [] [] [] []].
  - rewrite (contains_map _ _ _ lower_char_dot). unfold Str.replace.
    apply contains_map_none. intros a.
    by destruct a as [[] [] [] [] [] [] [] []].
Qed.

(** [get_output_bucket_name] is clean for every project. *)
Lemma output_bucket_name_clean (project_id : string) :
  clean_bucket_name (get_output_bucket_name project_id).
Proof.
  unfold clean_bucket_name, get_output_bucket_name.
  destruct (safe_project_clean project_id) as [Hc Hd]. simpl in Hc, Hd.
  rewrite !contains_append, Hc, Hd, is_lower_append, is_lower_lower. done.
Qed.

(** [get_staging_bucket_name] is lower-case for every region, and clean
    for the regions that have neither colon nor dot themselves. *)
Lemma staging_bucket_name_clean (project_id location : string) :
  Str.is_lower (get_staging_bucket_name project_id location) = true
  ∧ (Str.contains ":" location = false → Str.contains "." location = false →
     clean_bucket_name (get_staging_bucket_name project_id location)).
Proof.
  unfold clean_bucket_name, get_staging_bucket_name.
  destruct (safe_project_clean project_id) as [Hc Hd]. simpl in Hc, Hd.
  assert (Str.is_lower
            ("gemini-transcriber-"
             +:+ Str.lower (Str.replace "." "-" (Str.replace ":" "-" project_id))
             +:+ "-" +:+ Str.lower location) = true) as Hl.
  { rewrite !is_lower_append, !is_lower_lower. done. }
  split; [done|]. intros Hlc Hld.
  rewrite !contains_append, Hc, Hd. unfold Str.lower at 2 4.
  rewrite (contains_map _ _ _ lower_char_colon),
    (contains_map _ _ _ lower_char_dot), Hlc, Hld. done.
Qed.

(** C7, at a region with a dot.  The project is sanitized, the region is
    only lower-cased: the staging bucket name keeps the region's dot. *)
Theorem staging_bucket_name_keeps_region_dot :
  get_staging_bucket_name "my.proj" "EU.West1"
  = "gemini-transcriber-my-proj-eu.west1"
  ∧ Str.contains "." (get_staging_bucket_name "my.proj" "EU.West1") = true
  ∧ ¬ clean_bucket_name (get_staging_bucket_name "my.proj" "EU.West1").
Proof.
  split; [reflexivity|]. split; [reflexivity|].
  intros (_ & Hd & _). vm_compute in Hd. discriminate.
Qed.

End Strings.

(** ** [splitext] on a name that ends in [.txt] *)

Section Splitext.

Lemma rfind_from_range (c : ascii) (s : string) (i : Z) :
  0 ≤ i →
  Str.rfind_from c s i = -1
  ∨ (i ≤ Str.rfind_from c s i < i + Z.of_nat (String.length s)).
Proof.
  revert i. induction s as [|x s IH]; intros i Hi; simpl; [by left|].
  destruct (IH (i + 1)) as [Hr|Hr]; [lia| |].
  - rewrite Hr. simpl. destruct (Ascii.eqb x c); [right; lia|by left].
  - destruct (0 <=? Str.rfind_from c s (i + 1)) eqn:Hle; [right; lia|].
    apply Z.leb_gt in Hle. lia.
Qed.

Lemma rfind_from_append (c : ascii) (a b : string) (i : Z) :
  0 ≤ i →
  Str.rfind_from c (a +:+ b) i
  = if 0 <=? Str.rfind_from c b (i + Z.of_nat (String.length a))
    then Str.rfind_from c b (i + Z.of_nat (String.length a))
    else Str.rfind_from c a i.
Proof.
  revert i. induction a as [|x a IH]; intros i Hi.
  - change ("" +:+ b) with b. simpl. rewrite Z.add_0_r.
    destruct (rfind_from_range c b i Hi) as [Hr|Hr].
    + by rewrite Hr.
    + destruct (0 <=? Str.rfind_from c b i) eqn:Hle; [done|].
      apply Z.leb_gt in Hle. lia.
  - change (String x a +:+ b) with (String x (a +:+ b)).
    cbn [Str.rfind_from String.length]. rewrite IH by lia.
    replace (i + 1 + Z.of_nat (String.length a))
      with (i + Z.of_nat (S (String.length a))) by lia.
    destruct (0 <=? Str.rfind_from c b (i + Z.of_nat (S (String.length a))))
      eqn:Hle.
    + by rewrite Hle.
    + done.
Qed.

Lemma take_append (a b : string) : Str.take (String.length a) (a +:+ b) = a.
Proof.
  induction a as [|x a IH]; [by destruct b|].
  change (String x a +:+ b) with (String x (a +:+ b)). simpl. by rewrite IH.
Qed.

Lemma drop_append (a b : string) : Str.drop (String.length a) (a +:+ b) = b.
Proof.
  induction a as [|x a IH]; [done|].
  change (String x a +:+ b) with (String x (a +:+ b)). simpl. by rewrite IH.
Qed.

Lemma drop_all (a : string) : Str.drop (String.length a) a = "".
Proof. induction a as [|x a IH]; simpl; done. Qed.

Lemma splitext_scan_shift (x : ascii) (p : string) (i todo : nat) :
  OsPath.splitext_scan (String x p) (S i) todo = OsPath.splitext_scan p i todo.
Proof.
  revert i. induction todo as [|todo IH]; intros i; [done|].
  simpl. by rewrite IH.
Qed.

Lemma splitext_scan_whole (name t : string) :
  OsPath.splitext_scan (name +:+ t) 0 (String.length name)
  = existsb (λ a, negb (Ascii.eqb a ".")) (Str.chars name).
Proof.
  induction name as [|x name IH]; [done|].
  change (String x name +:+ t) with (String x (name +:+ t)).
  cbn [String.length OsPath.splitext_scan String.get Str.chars existsb].
  rewrite splitext_scan_shift, IH.
  by destruct x as [[] [] [] [] [] [] [] []].
Qed.

(** The scan of [splitext] over the end of [name], inside [name +:+ t]:
    it finds a character iff one of them is not the dot. *)
Lemma splitext_scan_append (name t : string) (todo i : nat) :
  (i + todo = String.length name)%nat →
  OsPath.splitext_scan (name +:+ t) i todo
  = existsb (λ a, negb (Ascii.eqb a ".")) (Str.chars (Str.drop i name)).
Proof.
  revert name todo. induction i as [|i IH]; intros name todo Hlen.
  - simpl in Hlen. subst todo. rewrite splitext_scan_whole. by destruct name.
  - destruct name as [|x name]; [simpl in Hlen; lia|].
    change (String x name +:+ t) with (String x (name +:+ t)).
    rewrite splitext_scan_shift. cbn [Str.drop]. apply IH.
    simpl in Hlen. lia.
Qed.

(** A name with a stem splits at the [.txt] that was appended to it. *)
Lemma splitext_txt (name : string) :
  has_stem name = true →
  OsPath.splitext (name +:+ ".txt") = (name, ".txt").
Proof.
  unfold has_stem, OsPath.basename, OsPath.splitext, Str.rfind. intros Hstem.
  rewrite !rfind_from_append by lia. simpl. rewrite !Z.add_0_l.
  set (sep := Str.rfind_from "/" name 0) in *.
  assert (-1 ≤ sep < Z.of_nat (String.length name)) as Hsep.
  { destruct (rfind_from_range "/" name 0) as [Hr|Hr]; unfold sep; lia. }
  assert ((0 <=? Z.of_nat (String.length name)) = true) as ->
    by (apply Z.leb_le; lia).
  assert ((sep <? Z.of_nat (String.length name)) = true) as ->
    by (apply Z.ltb_lt; lia).
  rewrite splitext_scan_append by lia. rewrite Hstem.
  by rewrite Nat2Z.id, take_append, drop_append.
Qed.

End Splitext.

(** ** [sanitize_filename] twice *)

Section Sanitize.
Context `{Env}.

(** C8 (amended).  [sanitize_filename] is a function of the file name
    (and of the transliteration), and applying it to its own output
    changes nothing when the base of the name is already transliterated,
    lower-case and free of spaces, and its last component has a character
    other than the dot. *)
Theorem sanitize_filename_idempotent (x : string) :
  (∀ y, y = x → sanitize_filename y = sanitize_filename x)
  ∧ (already_sanitized (fst (OsPath.splitext x)) →
     has_stem (fst (OsPath.splitext x)) = true →
     sanitize_filename (sanitize_filename x) = sanitize_filename x).
Proof.
  split; [by intros y ->|].
  intros (Htr & Hlow & Hsp) Hstem.
  assert (sanitize_filename x = fst (OsPath.splitext x) +:+ ".txt") as Hs.
  { unfold sanitize_filename. destruct (OsPath.splitext x) as [name ext].
    simpl in *. by rewrite Htr, Hlow, Hsp. }
  rewrite Hs. unfold sanitize_filename at 1.
  rewrite (splitext_txt _ Hstem). by rewrite Htr, Hlow, Hsp.
Qed.

End Sanitize.

Lemma sanitize_filename_idempotent_witness :
  @sanitize_filename (mock_env sunny) (@sanitize_filename (mock_env sunny) "my_clip.mp4")
  = @sanitize_filename (mock_env sunny) "my_clip.mp4".
Proof.
  apply (proj2 (@sanitize_filename_idempotent (mock_env sunny) "my_clip.mp4")).
  - repeat split.
  - reflexivity.
Defined.

(** C8, as stated, fails on a name made of dots: its base is as
    sanitized as can be, yet the second pass appends a second [.txt]. *)
Lemma dots_not_idempotent :
  @already_sanitized (mock_env sunny) (fst (OsPath.splitext "..."))
  ∧ @sanitize_filename (mock_env sunny) "..." = "....txt"
  ∧ @sanitize_filename (mock_env sunny) (@sanitize_filename (mock_env sunny) "...")
    = "....txt.txt"
  ∧ @sanitize_filename (mock_env sunny) (@sanitize_filename (mock_env sunny) "...")
    ≠ @sanitize_filename (mock_env sunny) "...".
Proof. repeat split. vm_compute. discriminate. Qed.

(** ** When the storage client cannot be built *)

Section BestEffort.
Context `{Env}.

(** With a client, [ensure_bucket] returns whatever the handle, the check
    and the creation do. *)
Lemma ensure_bucket_catches (b l : string) (s : state) (w : world) :
  handle Storage_Client (outside s) = (Ok tt, w) →
  out (ensure_bucket b l s) = Ret tt.
Proof.
  intros Hclient. unfold ensure_bucket, traced.
  unfold bind at 1. unfold ext at 1. rewrite Hclient. simpl.
  unfold try_except, bind, ext, print, emit. simpl.
  destruct (handle (Client_bucket b) w) as [[[]|e1] w1]; simpl; [|done].
  destruct (handle (Bucket_exists b) w1) as [[[]|e2] w2]; simpl; [done| |done].
  destruct (handle (Bucket_create b l) w2) as [[[]|e3] w3]; simpl; done.
Qed.

(** Without one, the exception leaves [ensure_bucket]: the client is built
    before the [try]. *)
Lemma ensure_bucket_raises (b l : string) (s : state) (w : world) (e : exn) :
  handle Storage_Client (outside s) = (Err e, w) →
  out (ensure_bucket b l s) = Raise e.
Proof.
  intros Hclient. unfold ensure_bucket, traced.
  unfold bind at 1. unfold ext at 1. by rewrite Hclient.
Qed.

(** A run whose upload raises exits with status 1 and enters no inference
    function. *)
Lemma failed_upload_stops (a : args) (s : state) (b p n : string) (err : exn) :
  In (Raised (Call_upload_to_gcs b p n) err) (log (main a s)) →
  out (main a s) = Exit 1
  ∧ List.filter is_inference_entry (log (main a s)) = [].
Proof.
  intros Hin%in_calls; [|done].
  rewrite (filter_calls _ _ inference_entry_is_call).
  main_paths a s; rewrite Hc in *.
  - in_cases Hin.
  - unfold provision_failure in Hprov.
    destruct (Str.truthy_opt (bucket a)), Hprov as [(? & ->)| ->]; in_cases Hin.
  - unfold ensured_buckets.
    by destruct (Str.truthy_opt (bucket a)).
  - exfalso.
    unfold ensured_buckets, save_shape, cleanup_shape, the_inference_call in *.
    destruct (Str.truthy_opt (bucket a)), (Str.truthy_opt (api_key a)),
      (keep_gcs a);
      destruct Hsave as [(e & _ & Hc1 & _)|[(t & e & _ & Hc1)
        |(t & _ & _ & _ & [(u' & Hc1)|(e & Hc1 & _)])]];
      try destruct Hclean as [Hc2|(e' & Hc2)]; rewrite ?Hclean, ?Hc1, ?Hc2 in *;
      in_cases Hin.
Qed.

End BestEffort.

(** C3 on the scripted world.  When the existence check raises, the error
    is caught in [ensure_bucket], the upload is attempted, and when that
    raises too the run exits with status 1 without any inference call. *)
Example check_error_is_caught :
  let r := mock_run check_and_upload_raise plain_args in
  calls (log r)
  = returned Call_get_gcloud_region None
    ++ returned (Call_ensure_bucket
                   "gemini-transcriber-example-com-my-proj-us-central1"
                   "us-central1") None
    ++ returned (Call_ensure_bucket
                   "example-com-my-proj-gemini-video-transcribe" "us-central1") None
    ++ raised (Call_upload_to_gcs
                 "gemini-transcriber-example-com-my-proj-us-central1"
                 "in/Clip One.mp4"
                 "gemini-transcriber-staging/1700000000_Clip One.mp4") "boom"
  ∧ out r = Exit 1.
Proof. vm_compute. done. Qed.

(** C3, where the code departs from it.  When [storage.Client()] itself
    raises in the staging bucket's [ensure_bucket], nothing catches the
    exception: it leaves [ensure_bucket] and [main], and the upload is
    never attempted. *)
Theorem storage_client_error_escapes :
  let r := mock_run no_storage_client plain_args in
  out r = Raise "boom"
  ∧ calls (log r)
    = returned Call_get_gcloud_region None
      ++ raised (Call_ensure_bucket
                   "gemini-transcriber-example-com-my-proj-us-central1"
                   "us-central1") "boom"
  ∧ List.filter is_upload_entry (log r) = []
  ∧ List.filter is_inference_entry (log r) = [].
Proof. vm_compute. done. Qed.

(** The same departure one call later: the check raises and is caught in
    the staging bucket's [ensure_bucket], then the client cannot be built
    in the output bucket's, and the upload is never attempted. *)
Example caught_check_then_client_error :
  let r := @main second_client_fails plain_args (@State second_client_fails O ∅) in
  out r = Raise "no credentials"
  ∧ calls (log r)
    = returned Call_get_gcloud_region None
      ++ returned (Call_ensure_bucket
                     "gemini-transcriber-example-com-my-proj-us-central1"
                     "us-central1") None
      ++ raised (Call_ensure_bucket
                   "example-com-my-proj-gemini-video-transcribe" "us-central1")
           "no credentials"
  ∧ List.filter is_upload_entry (log r) = [].
Proof. vm_compute. done. Qed.

(** ** Sanity checks of the model *)

Example splitext_plain :
  OsPath.splitext "dir.d/Clip One.MP4" = ("dir.d/Clip One", ".MP4").
Proof. reflexivity. Qed.

Example splitext_hidden : OsPath.splitext ".bashrc" = (".bashrc", "").
Proof. reflexivity. Qed.

Example splitext_no_extension : OsPath.splitext "a.b/c" = ("a.b/c", "").
Proof. reflexivity. Qed.

Example dirname_twice :
  OsPath.dirname (OsPath.dirname "/opt/app/src/transcribe.py") = "/opt/app".
Proof. reflexivity. Qed.

Example basename_of_path : OsPath.basename "in/Clip One.mp4" = "Clip One.mp4".
Proof. reflexivity. Qed.

Example strip_stdout : Str.strip ("  us-east1 " +:+ Str.nl) = "us-east1".
Proof. reflexivity. Qed.

Example sanitize_clip :
  @sanitize_filename (mock_env sunny) "Clip One.mp4" = "clip_one.txt".
Proof. reflexivity. Qed.

Example sunny_run_ends_well :
  exit_code (out (mock_run sunny plain_args)) = 0
  ∧ files (fin (mock_run sunny plain_args))
      !! "/opt/app/workspace/output/clip_one.txt" = Some "Hello world".
Proof. vm_compute. done. Qed.

(** A fragment without text makes [transcribe_video] raise, after it has
    printed [None]; [transcribe_video_genai] skips it. *)
Example none_fragment :
  out (@transcribe_video (mock_env none_in_stream) "proj" "us-central1"
         "gemini-2.5-pro" "gs://b/n" default_prompt (mock_start none_in_stream))
  = Raise concat_none_error
  ∧ out (@transcribe_video_genai (mock_env none_in_stream) "k-123" "proj"
           "us-central1" "gs://b/n" "gemini-2.5-pro" default_prompt
           (mock_start none_in_stream))
    = Ret "Hello".
Proof. vm_compute. done. Qed.


(** * Further properties *)

(** ** Bucket names *)

Section BucketNames.

Lemma map_map (f g : ascii → ascii) (s : string) :
  Str.map f (Str.map g s) = Str.map (λ a, f (g a)) s.
Proof. induction s as [|x s IH]; simpl; [done|by rewrite IH]. Qed.

Lemma map_ext (f g : ascii → ascii) (s : string) :
  (∀ a, f a = g a) → Str.map f s = Str.map g s.
Proof. intros Hfg. induction s as [|x s IH]; simpl; [done|by rewrite Hfg, IH]. Qed.

(** Replacing a separator beforehand changes nothing in what the two
    replacements leave. *)
Lemma separators_replaced_once (p : string) :
  Str.replace "." "-" (Str.replace ":" "-" (Str.replace ":" "-" p))
  = Str.replace "." "-" (Str.replace ":" "-" p)
  ∧ Str.replace "." "-" (Str.replace ":" "-" (Str.replace "." "-" p))
    = Str.replace "." "-" (Str.replace ":" "-" p).
Proof.
  unfold Str.replace. rewrite !map_map.
  split; apply map_ext; intros a;
    by destruct a as [[] [] [] [] [] [] [] []].
Qed.

(** X1.  Neither bucket name tells a colon or a dot in the project from a
    dash: projects that differ only in these separators share their
    buckets. *)
Theorem bucket_names_collide (project_id location : string) :
  get_output_bucket_name (Str.replace ":" "-" project_id)
  = get_output_bucket_name project_id
  ∧ get_output_bucket_name (Str.replace "." "-" project_id)
    = get_output_bucket_name project_id
  ∧ get_staging_bucket_name (Str.replace ":" "-" project_id) location
    = get_staging_bucket_name project_id location
  ∧ get_staging_bucket_name (Str.replace "." "-" project_id) location
    = get_staging_bucket_name project_id location.
Proof.
  unfold get_output_bucket_name, get_staging_bucket_name.
  destruct (separators_replaced_once project_id) as (H1 & H2).
  by rewrite H1, H2.
Qed.

(** X2.  The output bucket name never has a colon, a dot or an
    upper-case letter.  The staging bucket name never has an upper-case
    letter, and it has neither colon nor dot exactly when the region has
    none: the region is lower-cased but not sanitized. *)
Theorem derived_bucket_names_clean (project_id location : string) :
  clean_bucket_name (get_output_bucket_name project_id)
  ∧ Str.is_lower (get_staging_bucket_name project_id location) = true
  ∧ (clean_bucket_name (get_staging_bucket_name project_id location)
     ↔ Str.contains ":" location = false ∧ Str.contains "." location = false).
Proof.
  split; [apply output_bucket_name_clean|].
  destruct (staging_bucket_name_clean project_id location) as [Hl Hclean].
  split; [done|]. split; [|intros [? ?]; by apply Hclean].
  unfold clean_bucket_name, get_staging_bucket_name.
  rewrite !contains_append. intros (Hc & Hd & _).
  apply orb_false_iff in Hc as [_ Hc]. apply orb_false_iff in Hc as [_ Hc].
  apply orb_false_iff in Hc as [_ Hc].
  apply orb_false_iff in Hd as [_ Hd]. apply orb_false_iff in Hd as [_ Hd].
  apply orb_false_iff in Hd as [_ Hd]. unfold Str.lower in Hc, Hd.
  rewrite (contains_map _ _ _ lower_char_colon) in Hc.
  rewrite (contains_map _ _ _ lower_char_dot) in Hd. done.
Qed.

End BucketNames.


(** ** Output file names *)

Section OutputNames.
Context `{Env}.

Lemma is_lower_map (f : ascii → ascii) (s : string) :
  (∀ a, Str.is_upper (f a) = false) → Str.is_lower (Str.map f s) = true.
Proof.
  intros Hf. unfold Str.is_lower. rewrite chars_map.
  induction (Str.chars s) as [|x l IH]; simpl; [done|]. by rewrite Hf, IH.
Qed.

(** X3.  Whatever the name and whatever the transliteration does, the
    output name ends in [.txt] and the part before it has no space and no
    upper-case letter. *)
Theorem sanitize_filename_shape (filename : string) :
  ∃ base,
    sanitize_filename filename = base +:+ ".txt"
    ∧ Str.contains " " base = false
    ∧ Str.is_lower base = true.
Proof.
  unfold sanitize_filename. destruct (OsPath.splitext filename) as [name ext].
  eexists. split; [reflexivity|]. unfold Str.replace, Str.lower. split.
  - apply contains_map_none. intros a. by destruct a as [[] [] [] [] [] [] [] []].
  - rewrite map_map. apply is_lower_map. intros a.
    by destruct a as [[] [] [] [] [] [] [] []].
Qed.

Lemma rfind_from_absent (c : ascii) (s : string) (i : Z) :
  Str.contains c s = false → Str.rfind_from c s i = -1.
Proof.
  unfold Str.contains. revert i.
  induction s as [|x s IH]; intros i Hc; simpl in *; [done|].
  apply orb_false_iff in Hc as [Hx Hs]. rewrite (IH _ Hs). simpl.
  rewrite Ascii.eqb_sym in Hx. by rewrite Hx.
Qed.

(** A name with a stem splits at a plain extension appended to it. *)
Lemma splitext_plain_extension (name ext : string) :
  has_stem name = true → plain_extension ext = true →
  OsPath.splitext (name +:+ ext) = (name, ext).
Proof.
  unfold has_stem, OsPath.basename, OsPath.splitext, Str.rfind, plain_extension.
  intros Hstem Hext.
  destruct ext as [|d rest]; [done|].
  destruct (Ascii.eqb_spec d ".") as [->|Hd]; [|by destruct d as [[] [] [] [] [] [] [] []]].
  apply andb_true_iff in Hext as [Hdot Hsl]. apply negb_true_iff in Hdot, Hsl.
  rewrite !rfind_from_append by lia. cbn [Str.rfind_from].
  rewrite !(rfind_from_absent "." rest) by done.
  rewrite !(rfind_from_absent "/" rest) by done. simpl. rewrite ?Z.add_0_l.
  set (sep := Str.rfind_from "/" name 0) in *.
  assert (-1 ≤ sep < Z.of_nat (String.length name)) as Hsep.
  { destruct (rfind_from_range "/" name 0) as [Hr|Hr]; unfold sep; lia. }
  assert ((0 <=? Z.of_nat (String.length name)) = true) as ->
    by (apply Z.leb_le; lia).
  assert ((sep <? Z.of_nat (String.length name)) = true) as ->
    by (apply Z.ltb_lt; lia).
  rewrite splitext_scan_append by lia. rewrite Hstem.
  by rewrite Nat2Z.id, take_append, drop_append.
Qed.

(** X4.  The extension is dropped: two names that differ only in a plain
    extension get the same output name, so the transcript of one replaces
    the transcript of the other. *)
Theorem sanitize_filename_drops_extension (name ext1 ext2 : string) :
  has_stem name = true →
  plain_extension ext1 = true → plain_extension ext2 = true →
  sanitize_filename (name +:+ ext1) = sanitize_filename (name +:+ ext2).
Proof.
  intros Hstem H1 H2. unfold sanitize_filename.
  by rewrite !splitext_plain_extension.
Qed.

End OutputNames.

Lemma sanitize_filename_drops_extension_witness :
  @sanitize_filename (mock_env sunny) "talks/Clip One.mp4"
  = @sanitize_filename (mock_env sunny) "talks/Clip One.mov".
Proof.
  apply (@sanitize_filename_drops_extension (mock_env sunny) "talks/Clip One"
           ".mp4" ".mov"); reflexivity.
Defined.


(** ** The gateways, one call at a time *)

Section Gateways.
Context `{Env}.

(** X5.  [get_gcloud_region] always returns: [None], or a region that is
    not empty and not the placeholder gcloud prints for an unset value.
    It asks gcloud once and touches nothing else. *)
Theorem get_gcloud_region_result (s : state) :
  ∃ region ok,
    out (get_gcloud_region s) = Ret region
    ∧ log (get_gcloud_region s)
      = [Enter Call_get_gcloud_region;
         Ext (Gcloud_config_get_value "compute/region") ok;
         Return Call_get_gcloud_region region]
    ∧ files (fin (get_gcloud_region s)) = files s
    ∧ match region with
      | None => True
      | Some r => Str.truthy r = true ∧ r ≠ "(unset)" ∧ ok = true
      end.
Proof.
  unfold get_gcloud_region, traced, try_except, bind, ext.
  destruct (handle _ (outside s)) as [[stdout|e] w]; simpl.
  - destruct (Str.truthy (Str.strip stdout)) eqn:Ht; simpl.
    + destruct (String.eqb_spec (Str.strip stdout) "(unset)") as [Hu|Hu]; simpl.
      * by exists None, true.
      * by exists (Some (Str.strip stdout)), true.
    + by exists None, true.
  - by exists None, false.
Qed.


(** X7.  A bucket that exists is not created again: when the check
    answers [True], the check is the last thing [ensure_bucket] asks of
    the world. *)
Theorem ensure_bucket_keeps_existing (b l : string) (s : state) (w w1 w2 : world) :
  handle Storage_Client (outside s) = (Ok tt, w) →
  handle (Client_bucket b) w = (Ok tt, w1) →
  handle (Bucket_exists b) w1 = (Ok true, w2) →
  out (ensure_bucket b l s) = Ret tt
  ∧ outside (fin (ensure_bucket b l s)) = w2
  ∧ List.filter is_create_event (log (ensure_bucket b l s)) = []
  ∧ In (Print ("Using existing bucket: " +:+ b +:+ Str.nl)) (log (ensure_bucket b l s)).
Proof.
  intros Hclient Hbucket Hexists.
  unfold ensure_bucket, traced, try_except, bind, ext, print, emit.
  rewrite Hclient. simpl. rewrite Hbucket. simpl. rewrite Hexists. simpl.
  auto 10.
Qed.


End Gateways.



Lemma ensure_bucket_keeps_existing_witness :
  List.filter is_create_event
    (log (@ensure_bucket (mock_env bucket_exists_already) "my-bucket" "us-central1"
            (mock_start bucket_exists_already))) = [].
Proof.
  exact (proj1 (proj2 (proj2
           (@ensure_bucket_keeps_existing (mock_env bucket_exists_already)
              "my-bucket" "us-central1" (mock_start _) tt tt tt
              eq_refl eq_refl eq_refl)))).
Defined.

(** ** A stream that breaks *)

Section BrokenStreams.
Context `{Env}.

Lemma loop_all_broken (ts : list string) (e : exn) (rest : stream)
    (acc : string) (s : state) :
  for_each (broken_stream ts e rest) acc
    (λ full_text text_chunk,
       print_end (show_fragment text_chunk) ;;'
       match text_chunk with
       | Some t => ret (full_text +:+ t)
       | None => raise concat_none_error
       end) s
  = Run (Raise e) s
      (List.flat_map (λ t, [Next (Some (Ok (Some t))); Print t]) ts
       ++ [Next (Some (Err e))]).
Proof.
  unfold broken_stream. revert acc.
  induction ts as [|t ts IH]; intros acc; simpl; [done|].
  unfold bind at 1 2 3. simpl. by rewrite IH.
Qed.

Lemma loop_kept_broken (ts : list string) (e : exn) (rest : stream)
    (acc : string) (s : state) :
  for_each (broken_stream ts e rest) acc
    (λ full_text chunk,
       match chunk with
       | Some t =>
           if Str.truthy t then print_end t ;;' ret (full_text +:+ t)
           else ret full_text
       | None => ret full_text
       end) s
  = Run (Raise e) s
      (List.flat_map
         (λ t, Next (Some (Ok (Some t))) :: (if Str.truthy t then [Print t] else []))
         ts
       ++ [Next (Some (Err e))]).
Proof.
  unfold broken_stream. revert acc.
  induction ts as [|t ts IH]; intros acc; simpl; [done|].
  unfold bind at 1 2. simpl. destruct (Str.truthy t); simpl; by rewrite IH.
Qed.

(** X9.  When the stream raises after some fragments, both inference
    functions raise that exception: the fragments received so far have
    been printed, none is returned, and nothing more is asked of the
    stream. *)
Theorem broken_stream_aborts (ts : list string) (e : exn) (rest : stream)
    (k p l m u q : string) (sa sb : state) (w1 w2 w3 v1 v2 : world) :
  (handle (Vertexai_init p l) (outside sa) = (Ok tt, w1) →
   handle (GenerativeModel m) w1 = (Ok tt, w2) →
   handle (Model_generate_content m u q) w2 = (Ok (broken_stream ts e rest), w3) →
   out (transcribe_video p l m u q sa) = Raise e
   ∧ List.filter (λ ev, match ev with Next _ => true | _ => false end)
       (log (transcribe_video p l m u q sa))
     = List.map (λ t, Next (Some (Ok (Some t)))) ts ++ [Next (Some (Err e))]
   ∧ ∀ t, In t ts → In (Print t) (log (transcribe_video p l m u q sa)))
  ∧ (handle (Genai_Client k) (outside sb) = (Ok tt, v1) →
     handle (Models_generate_content_stream m u q) v1
     = (Ok (broken_stream ts e rest), v2) →
     out (transcribe_video_genai k p l u m q sb) = Raise e
     ∧ List.filter (λ ev, match ev with Next _ => true | _ => false end)
         (log (transcribe_video_genai k p l u m q sb))
       = List.map (λ t, Next (Some (Ok (Some t)))) ts ++ [Next (Some (Err e))]).
Proof.
  split.
  - intros H1 H2 H3.
    unfold transcribe_video, traced, bind, ext, print, emit. simpl.
    rewrite H1. simpl. rewrite H2. simpl. rewrite H3. simpl.
    rewrite loop_all_broken. simpl. split; [done|]. split.
    + rewrite !List.filter_app. simpl. rewrite app_nil_r. f_equal.
      clear. induction ts as [|t ts IH]; simpl; [done|]. by rewrite IH.
    + intros t Ht. do 7 right. apply in_or_app. left. apply in_or_app. left.
      clear -Ht. induction ts as [|t' ts IH]; [done|]. destruct Ht as [->|Ht]; simpl; auto.
  - intros H1 H2.
    unfold transcribe_video_genai, traced, bind, ext, print, emit. simpl.
    rewrite H1. simpl. rewrite H2. simpl.
    rewrite loop_kept_broken. simpl. split; [done|].
    rewrite !List.filter_app. simpl. rewrite app_nil_r. f_equal.
    clear. induction ts as [|t ts IH]; simpl; [done|].
    rewrite List.filter_app, IH. by destruct (Str.truthy t).
Qed.

End BrokenStreams.

Lemma broken_stream_aborts_witness :
  out (@transcribe_video (mock_env stream_breaks) "proj" "us-central1"
         "gemini-2.5-pro" "gs://b/n" default_prompt (mock_start stream_breaks))
  = Raise "connection reset"
  ∧ out (@transcribe_video_genai (mock_env stream_breaks) "k-123" "proj"
           "us-central1" "gs://b/n" "gemini-2.5-pro" default_prompt
           (mock_start stream_breaks))
    = Raise "connection reset".
Proof.
  pose proof (@broken_stream_aborts (mock_env stream_breaks) ["Hel"; "lo "]
                "connection reset" [Ok (Some "world")]
                "k-123" "proj" "us-central1" "gemini-2.5-pro" "gs://b/n"
                default_prompt (mock_start _) (mock_start _) tt tt tt tt tt)
    as [Ha Hb].
  split.
  - exact (proj1 (Ha eq_refl eq_refl eq_refl)).
  - exact (proj1 (Hb eq_refl eq_refl)).
Defined.


(** ** More on the orchestrator *)

Ltac all_paths a :=
  unfold provision_failure, ensured_buckets, save_shape, cleanup_shape,
    the_inference_call in *;
  destruct (Str.truthy_opt (bucket a)), (Str.truthy_opt (api_key a)),
    (keep_gcs a).

Section Orchestration.
Context `{Env}.

(** X11.  When the inference function raises, the run exits with status 1,
    the local files are as they were, and nothing is mirrored to the
    output bucket. *)
Theorem inference_failure_is_fatal (a : args) (s : state) (inf : call) (err : exn) :
  is_inference_entry (Enter inf) = true →
  In (Raised inf err) (log (main a s)) →
  out (main a s) = Exit 1
  ∧ files (fin (main a s)) = files s
  ∧ List.filter is_mirror_entry (log (main a s)) = [].
Proof.
  intros Hinf Hin%in_calls; [|done].
  assert (∀ e, is_mirror_entry e = true → is_call_event e = true) as Hm
    by (by intros []).
  rewrite (filter_calls _ _ Hm).
  main_paths a s; rewrite Hc in *.
  - in_cases Hin; by inversion Hin; subst.
  - unfold provision_failure in Hprov.
    destruct (Str.truthy_opt (bucket a)), Hprov as [(? & ->)| ->];
      in_cases Hin; by inversion Hin; subst.
  - unfold ensured_buckets in *.
    destruct (Str.truthy_opt (bucket a)); in_cases Hin; by inversion Hin; subst.
  - all_paths a;
      destruct Hsave as [(e & Ho1 & Hc1 & Hf)|[(t & e & Ho1 & Hc1)
        |(t & Ho1 & Hf & _ & [(u' & Hc1)|(e & Hc1 & _)])]];
      try destruct Hclean as [Hc2|(e' & Hc2)];
      rewrite ?Hclean, ?Hc1, ?Hc2 in *; subst o1;
      in_cases Hin; inversion Hin; subst; try discriminate; done.
Qed.

(** X12.  Whenever the mirror is attempted, it is given the output name
    [sanitize_filename] made of the source's basename and the very text
    that the inference function returned and that the local output file
    now holds, and it goes to a bucket [ensure_bucket] returned for. *)
Theorem mirror_matches_local (a : args) (s : state) (ob name content : string) :
  In (Enter (Call_upload_text_to_gcs ob name content)) (log (main a s)) →
  name = sanitize_filename (OsPath.basename (file_path a))
  ∧ files (fin (main a s)) !! the_output_path a = Some content
  ∧ (∃ inf, is_inference_entry (Enter inf) = true
            ∧ In (Return inf (Some content)) (log (main a s)))
  ∧ ∃ l, In (Return (Call_ensure_bucket ob l) None) (log (main a s)).
Proof.
  intros Hin%in_calls; [|done].
  main_paths a s.
  - rewrite Hc in Hin. in_cases Hin.
  - rewrite Hc in Hin. unfold provision_failure in Hprov.
    destruct (Str.truthy_opt (bucket a)), Hprov as [(? & ->)| ->]; in_cases Hin.
  - rewrite Hc in Hin. unfold ensured_buckets in *.
    destruct (Str.truthy_opt (bucket a)); in_cases Hin.
  - assert (∀ x, In x (calls (log (main a s))) → In x (log (main a s))) as Hback
      by (intros; by eapply calls_in).
    rewrite Hc in Hin, Hback.
    all_paths a;
      destruct Hsave as [(e & Ho1 & Hc1 & Hf)|[(t & e & Ho1 & Hc1)
        |(t & Ho1 & Hf & _ & [(u' & Hc1)|(e & Hc1 & _)])]];
      try destruct Hclean as [Hc2|(e' & Hc2)];
      rewrite ?Hclean, ?Hc1, ?Hc2 in *;
      in_cases Hin; inversion Hin; subst;
      (split; [done|]); rewrite Hf, lookup_insert_eq; (split; [done|]);
      (split; [eexists; split; [|apply Hback; simpl; auto 20]; done|]);
      eexists; apply Hback; simpl; auto 20.
Qed.

End Orchestration.


(** ** Landmarks *)

Section Silence.
Context `{Env}.
Variable p : event → bool.

Lemma silent_ret {A} (a : A) : silent p (ret a).
Proof. by intros s. Qed.

Lemma silent_raise {A} (e : exn) : silent p (@raise _ A e).
Proof. by intros s. Qed.

Lemma silent_sys_exit {A} (c : Z) : silent p (@sys_exit _ A c).
Proof. by intros s. Qed.

Lemma silent_set_file (path content : string) : silent p (set_file path content).
Proof. by intros s. Qed.

Lemma silent_emit (e : event) : p e = false → silent p (emit e).
Proof. intros He s. simpl. by rewrite He. Qed.

Lemma silent_print (t : string) : p (Print (t +:+ Str.nl)) = false → silent p (print t).
Proof. apply silent_emit. Qed.

Lemma silent_print_end (t : string) : p (Print t) = false → silent p (print_end t).
Proof. apply silent_emit. Qed.

Lemma silent_ext (o : op) : (∀ ok, p (Ext o ok) = false) → silent p (ext o).
Proof.
  intros Ho s. unfold ext. destruct (handle o (outside s)) as [[v|e] w]; simpl;
    by rewrite Ho.
Qed.

Lemma silent_ask (q : query) : p (Ask q) = false → silent p (ask q).
Proof.
  intros Hq s. unfold ask. destruct (answer q (outside s)) as [v w]. simpl.
  by rewrite Hq.
Qed.

Lemma silent_bind {A B} (m : M A) (f : A → M B) :
  silent p m → (∀ a, silent p (f a)) → silent p (bind m f).
Proof.
  intros Hm Hf s. unfold bind. specialize (Hm s).
  destruct (m s) as [[a|e|c] s1 e1]; simpl in *; try done.
  rewrite List.filter_app, Hm. apply Hf.
Qed.

Lemma silent_try_except {A} (m : M A) (h : exn → M A) :
  silent p m → (∀ e, silent p (h e)) → silent p (try_except m h).
Proof.
  intros Hm Hh s. unfold try_except. specialize (Hm s).
  destruct (m s) as [[a|e|c] s1 e1]; simpl in *; try done.
  rewrite List.filter_app, Hm. apply Hh.
Qed.

Lemma silent_try_except_all {A} (m : M A) (h : M A) :
  silent p m → silent p h → silent p (try_except_all m h).
Proof.
  intros Hm Hh s. unfold try_except_all. specialize (Hm s).
  destruct (m s) as [[a|e|c] s1 e1]; simpl in *; try done;
    rewrite List.filter_app, Hm; apply Hh.
Qed.

Lemma silent_try_finally {A} (m : M A) (f : M unit) :
  silent p m → silent p f → silent p (try_finally m f).
Proof.
  intros Hm Hf s. unfold try_finally. specialize (Hm s).
  destruct (m s) as [o s1 e1]. specialize (Hf s1).
  destruct (f s1) as [[[]|e|c] s2 e2]; simpl in *;
    by rewrite List.filter_app, Hm, Hf.
Qed.

Lemma silent_for_each {A} (rs : stream) (body : A → fragment → M A) :
  (∀ item, p (Next item) = false) →
  (∀ acc item, silent p (body acc item)) → ∀ acc, silent p (for_each rs acc body).
Proof.
  intros Hn Hb. induction rs as [|[item|e] rs IH]; intros acc; simpl.
  - apply silent_bind; [by apply silent_emit|intros; apply silent_ret].
  - apply silent_bind; [by apply silent_emit|intros _].
    apply silent_bind; [apply Hb|intros; apply IH].
  - apply silent_bind; [by apply silent_emit|intros; apply silent_raise].
Qed.

Lemma silent_if {A} (b : bool) (m1 m2 : M A) :
  silent p m1 → silent p m2 → silent p (if b then m1 else m2).
Proof. by destruct b. Qed.

Lemma silent_traced {A} (c : call) (show : A → option string) (body : M A) :
  p (Enter c) = false → (∀ v, p (Return c v) = false) →
  (∀ e, p (Raised c e) = false) →
  silent p body → silent p (traced c show body).
Proof.
  intros He Hr Hx Hb s. unfold traced. specialize (Hb s).
  destruct (body s) as [[a|e|n] s1 e1]; simpl in *;
    rewrite He, ?List.filter_app, Hb; simpl; by rewrite ?Hr, ?Hx.
Qed.

End Silence.

Ltac silent_step :=
  first
    [ apply silent_ret | apply silent_raise | apply silent_sys_exit
    | apply silent_set_file
    | apply silent_print; reflexivity
    | apply silent_print_end; reflexivity
    | apply silent_ext; intros ?; reflexivity
    | apply silent_ask; reflexivity
    | apply silent_emit; reflexivity
    | apply silent_bind; [|intros ?]
    | apply silent_try_except; [|intros ?]
    | apply silent_try_except_all
    | apply silent_try_finally
    | apply silent_for_each; [intros ?; reflexivity|intros ? ?]
    | apply silent_if
    | apply silent_traced; [reflexivity|intros ?; reflexivity|intros ?; reflexivity|]
    | match goal with |- silent _ (match ?x with _ => _ end) => destruct x end ].

Ltac silent_tac := repeat silent_step.

Section Dry.
Context `{Env}.

Lemma dry_get_gcloud_region : silent is_file_event get_gcloud_region.
Proof. unfold get_gcloud_region. silent_tac. Qed.

Lemma dry_ensure_bucket b l : silent is_file_event (ensure_bucket b l).
Proof. unfold ensure_bucket. silent_tac. Qed.

Lemma dry_upload_to_gcs b p n : silent is_file_event (upload_to_gcs b p n).
Proof. unfold upload_to_gcs. silent_tac. Qed.

Lemma dry_upload_text_to_gcs b n t : silent is_file_event (upload_text_to_gcs b n t).
Proof. unfold upload_text_to_gcs. silent_tac. Qed.

Lemma dry_delete_blob b n : silent is_file_event (delete_blob b n).
Proof. unfold delete_blob. silent_tac. Qed.

Lemma dry_transcribe_video p l m u q : silent is_file_event (transcribe_video p l m u q).
Proof. unfold transcribe_video. silent_tac. Qed.

Lemma dry_transcribe_video_genai k p l u m q :
  silent is_file_event (transcribe_video_genai k p l u m q).
Proof. unfold transcribe_video_genai. silent_tac. Qed.

Lemma dry_main_infer_project a : silent is_file_event (main_infer_project a).
Proof. unfold main_infer_project. silent_tac. Qed.

Lemma dry_main_handle_buckets a pid loc :
  silent is_file_event (main_handle_buckets a pid loc).
Proof.
  unfold main_handle_buckets.
  repeat first [apply dry_ensure_bucket | progress silent_tac].
Qed.

Lemma dry_main_cleanup a st blob : silent is_file_event (main_cleanup a st blob).
Proof.
  unfold main_cleanup.
  repeat first [apply dry_delete_blob | progress silent_tac].
Qed.

(** The landmarks of a log without file events are its calls. *)
Lemma marks_dry (l : list event) :
  List.filter is_file_event l = [] → marks l = calls l.
Proof.
  unfold marks, calls, is_mark. induction l as [|e l IH]; simpl; [done|].
  destruct (is_file_event e) eqn:Hf; [done|]. intros Hl.
  rewrite orb_false_r. destruct (is_call_event e); by rewrite IH.
Qed.

Lemma marks_app (l1 l2 : list event) : marks (l1 ++ l2) = marks l1 ++ marks l2.
Proof. apply List.filter_app. Qed.

End Dry.


Section MarkedBlocks.
Context `{Env}.

Lemma marks_finished {A} (c : call) (show : A → option string) (m : M A)
    s o s' ev :
  silent is_file_event m → m s = Run o s' ev → finished c show o ev →
  marks ev = match o with
             | Ret a => returned c (show a)
             | Raise e => raised c e
             | Exit _ => []
             end.
Proof.
  intros Hdry Hr Hfin. specialize (Hdry s). rewrite Hr in Hdry. simpl in Hdry.
  rewrite (marks_dry _ Hdry). by apply calls_finished.
Qed.

Lemma marks_inner {A} (m : M A) s o s' ev :
  silent is_file_event m → inner m → m s = Run o s' ev → marks ev = [].
Proof.
  intros Hdry Hin Hr. specialize (Hdry s). rewrite Hr in Hdry. simpl in Hdry.
  rewrite (marks_dry _ Hdry). by destruct (Hin _ _ _ _ Hr) as (_ & ? & _).
Qed.

(** What [main_infer_project] returns when [--project] is not empty. *)
Lemma main_infer_project_explicit a s o s' ev :
  main_infer_project a s = Run o s' ev →
  Str.truthy_opt (project a) = true → o = Ret (project a).
Proof.
  unfold main_infer_project. intros Hr Ht. rewrite Ht in Hr. simpl in Hr.
  unfold bind, ret in Hr. simpl in Hr. rewrite Ht in Hr. simpl in Hr.
  by inversion Hr.
Qed.

Lemma main_handle_buckets_marks a pid loc s o s' ev :
  main_handle_buckets a pid loc s = Run o s' ev →
  files s' = files s ∧
  ((o = Ret (the_staging_bucket a pid loc, get_output_bucket_name pid)
    ∧ marks ev = ensured_buckets a pid loc)
   ∨ ∃ e, o = Raise e ∧ provision_failure a pid loc e (marks ev)).
Proof.
  intros Hr. pose proof (dry_main_handle_buckets a pid loc s) as Hdry.
  rewrite Hr in Hdry. simpl in Hdry. rewrite (marks_dry _ Hdry).
  by apply main_handle_buckets_inv in Hr.
Qed.

Lemma main_cleanup_marks a st blob s o s' ev :
  main_cleanup a st blob s = Run o s' ev →
  files s' = files s ∧ o = Ret tt
  ∧ (if keep_gcs a then marks ev = []
     else marks ev = returned (Call_delete_blob st blob) None
          ∨ ∃ e, marks ev = raised (Call_delete_blob st blob) e).
Proof.
  intros Hr. pose proof (dry_main_cleanup a st blob s) as Hdry.
  rewrite Hr in Hdry. simpl in Hdry. rewrite (marks_dry _ Hdry).
  by apply main_cleanup_inv in Hr.
Qed.

Lemma upload_to_gcs_returns b p n s uri :
  out (upload_to_gcs b p n s) = Ret uri → uri = "gs://" +:+ b +:+ "/" +:+ n.
Proof.
  unfold upload_to_gcs, traced, bind, ext, print, emit. simpl.
  destruct (handle Storage_Client (outside s)) as [[[]|e1] w1]; simpl; [|done].
  destruct (handle (Client_bucket b) w1) as [[[]|e2] w2]; simpl; [|done].
  destruct (handle (Blob_upload_from_filename b n p) w2) as [[[]|e3] w3]; simpl;
    [|done].
  by intros [= <-].
Qed.

Lemma upload_text_to_gcs_returns b n t s uri :
  out (upload_text_to_gcs b n t s) = Ret uri → uri = "gs://" +:+ b +:+ "/" +:+ n.
Proof.
  unfold upload_text_to_gcs, traced, bind, ext, print, emit. simpl.
  destruct (handle Storage_Client (outside s)) as [[[]|e1] w1]; simpl; [|done].
  destruct (handle (Client_bucket b) w1) as [[[]|e2] w2]; simpl; [|done].
  destruct (handle (Blob_upload_from_string b n t) w2) as [[[]|e3] w3]; simpl;
    [|done].
  by intros [= <-].
Qed.

Lemma get_gcloud_region_reported s region :
  out (get_gcloud_region s) = Ret region → region_reported region.
Proof.
  unfold get_gcloud_region, traced, try_except, bind, ext.
  destruct (handle _ (outside s)) as [[stdout|e] w]; simpl.
  - destruct (Str.truthy (Str.strip stdout)) eqn:Ht; simpl.
    + destruct (String.eqb_spec (Str.strip stdout) "(unset)") as [Hu|Hu]; simpl;
        by intros [= <-].
    + by intros [= <-].
  - by intros [= <-].
Qed.

Lemma upload_to_gcs_marks b p n s o s' ev :
  upload_to_gcs b p n s = Run o s' ev →
  files s' = files s ∧
  ((o = Ret ("gs://" +:+ b +:+ "/" +:+ n)
    ∧ marks ev = returned (Call_upload_to_gcs b p n)
                   (Some ("gs://" +:+ b +:+ "/" +:+ n)))
   ∨ ∃ e, o = Raise e ∧ marks ev = raised (Call_upload_to_gcs b p n) e).
Proof.
  intros Hr. pose proof (upload_to_gcs_returns b p n s) as Hv.
  rewrite Hr in Hv. simpl in Hv.
  pose proof (upload_to_gcs_inv _ _ _ _ _ _ _ Hr) as (Hf & Hfin).
  pose proof (marks_finished _ _ _ _ _ _ _ (dry_upload_to_gcs b p n) Hr Hfin) as Hm.
  split; [done|]. destruct Hfin as [uri mid _|e mid _].
  - rewrite (Hv uri eq_refl) in *. by left.
  - right. by exists e.
Qed.

Lemma upload_text_to_gcs_marks b n t s o s' ev :
  upload_text_to_gcs b n t s = Run o s' ev →
  files s' = files s ∧
  ((o = Ret ("gs://" +:+ b +:+ "/" +:+ n)
    ∧ marks ev = returned (Call_upload_text_to_gcs b n t)
                   (Some ("gs://" +:+ b +:+ "/" +:+ n)))
   ∨ ∃ e, o = Raise e ∧ marks ev = raised (Call_upload_text_to_gcs b n t) e).
Proof.
  intros Hr. pose proof (upload_text_to_gcs_returns b n t s) as Hv.
  rewrite Hr in Hv. simpl in Hv.
  pose proof (upload_text_to_gcs_inv _ _ _ _ _ _ _ Hr) as (Hf & Hfin).
  pose proof (marks_finished _ _ _ _ _ _ _ (dry_upload_text_to_gcs b n t) Hr Hfin)
    as Hm.
  split; [done|]. destruct Hfin as [uri mid _|e mid _].
  - rewrite (Hv uri eq_refl) in *. by left.
  - right. by exists e.
Qed.

Lemma dispatch_marks a pid loc mdl uri s o s' ev :
  (if Str.truthy_opt (api_key a) then
     transcribe_video_genai (from_flag (api_key a) "") pid loc uri mdl default_prompt
   else transcribe_video pid loc mdl uri default_prompt) s = Run o s' ev →
  let inf :=
    if Str.truthy_opt (api_key a) then
      Call_transcribe_video_genai (from_flag (api_key a) "") pid loc uri mdl
        default_prompt
    else Call_transcribe_video pid loc mdl uri default_prompt in
  files s' = files s ∧
  ((∃ text, o = Ret text ∧ marks ev = returned inf (Some text))
   ∨ ∃ e, o = Raise e ∧ marks ev = raised inf e).
Proof.
  intros Hr inf. pose proof (dispatch_inv _ _ _ _ _ _ _ _ _ Hr) as (Hf & Hfin).
  fold inf in Hfin. split; [done|].
  assert (List.filter is_file_event ev = []) as Hdry.
  { destruct (Str.truthy_opt (api_key a)).
    - pose proof (dry_transcribe_video_genai (from_flag (api_key a) "") pid loc
                    uri mdl default_prompt s) as Hd. by rewrite Hr in Hd.
    - pose proof (dry_transcribe_video pid loc mdl uri default_prompt s) as Hd.
      by rewrite Hr in Hd. }
  rewrite (marks_dry _ Hdry), (calls_finished _ _ _ _ Hfin).
  destruct Hfin; eauto.
Qed.

End MarkedBlocks.


Section MarkedMain.
Context `{Env}.

Lemma main_transcribe_and_save_marks a pid loc mdl uri fname ob s o s' ev :
  main_transcribe_and_save a pid loc mdl uri fname ob s = Run o s' ev →
  save_marks
    (if Str.truthy_opt (api_key a) then
       Call_transcribe_video_genai (from_flag (api_key a) "") pid loc uri mdl
         default_prompt
     else Call_transcribe_video pid loc mdl uri default_prompt)
    (Call_upload_text_to_gcs ob (sanitize_filename fname))
    local_output_dir
    (OsPath.join local_output_dir (sanitize_filename fname))
    (files s) o (files s') (marks ev).
Proof.
  unfold main_transcribe_and_save, save_marks. intros Hr.
  unbind Hr as o0 s0 ev0 Hm.
  apply dispatch_marks in Hm as (Hf0 & [(text & -> & Hm0)|(e & -> & Hm0)]).
  2:{ destruct Hr as (-> & -> & ->). left. eauto. }
  right. exists text. destruct Hr as (ev1 & Hr & ->).
  unbind Hr as o1 s1 ev2 Hm. apply ask_inv in Hm as (Hf1 & found & -> & ->).
  destruct Hr as (ev3 & Hr & ->).
  unbind Hr as o2 s2 ev4 Hm.
  assert (files s2 = files s1 ∧
          ((∃ u, o2 = Ret u ∧ (marks ev4 = [] ∨ marks ev4 = [Ext (Os_makedirs local_output_dir) true]))
           ∨ ∃ e, o2 = Raise e ∧ marks ev4 = [Ext (Os_makedirs local_output_dir) false]))
    as (Hf2 & Ho).
  { destruct (negb found).
    - apply ext_inv in Hm as (? & [(v & -> & ->)|(e & -> & ->)]); eauto 10.
    - inversion Hm; subst; eauto 10. }
  clear Hm. destruct Ho as [(u & -> & Hmk)|(e & -> & Hmk)].
  2:{ destruct Hr as (-> & -> & ->). exists []. split; [by left|]. left.
      exists e. split; [done|]. split; [congruence|].
      rewrite !marks_app, Hm0, Hmk. done. }
  exists (marks ev4). split; [done|].
  destruct Hr as (ev5 & Hr & ->).
  unbind Hr as o3 s3 ev6 Hm.
  apply ext_inv in Hm as (Hf3 & [(v & -> & ->)|(e & -> & ->)]).
  2:{ destruct Hr as (-> & -> & ->). right. left.
      exists e. split; [done|]. split; [congruence|].
      rewrite !marks_app, Hm0. done. }
  destruct Hr as (ev7 & Hr & ->).
  unbind Hr as o4 s4 ev8 Hm. inversion Hm; subst; clear Hm.
  destruct Hr as (ev9 & Hr & ->).
  unbind Hr as o5 s5 ev10 Hm.
  apply ext_inv in Hm as (Hf4 & [(v' & -> & ->)|(e & -> & ->)]).
  2:{ destruct Hr as (-> & -> & ->). right. right. left.
      exists e. split; [done|]. split; [simpl in *; congruence|].
      rewrite !marks_app, Hm0. done. }
  destruct Hr as (ev11 & Hr & ->).
  unbind Hr as o6 s6 ev12 Hm. inversion Hm; subst; clear Hm.
  destruct Hr as (ev13 & Hr & ->).
  unbind Hr as o7 s7 ev14 Hm. inversion Hm; subst; clear Hm.
  destruct Hr as (ev15 & Hr & ->).
  apply try_except_inv in Hr as (o8 & s8 & ev16 & Hm & Hr).
  unbind Hm as o9 s9 ev17 Hup.
  apply upload_text_to_gcs_marks in Hup as (Hf5 & [(-> & Hm5)|(e & -> & Hm5)]).
  - destruct Hm as (ev18 & Hm & ->). inversion Hm; subst.
    destruct Hr as (-> & -> & ->). right. right. right.
    split; [done|]. split.
    { simpl in *.
      repeat match goal with
             | Hx : files ?x = _ |- context [files ?x] => rewrite Hx
             end.
      by rewrite insert_insert_eq. }
    exists (returned (Call_upload_text_to_gcs ob (sanitize_filename fname) text)
              (Some ("gs://" +:+ ob +:+ "/" +:+ sanitize_filename fname))).
    split; [|left; by eexists].
    rewrite !marks_app, Hm0, Hm5. simpl. by rewrite ?app_nil_r.
  - destruct Hm as (-> & -> & ->). destruct Hr as (ev18 & Hr & ->).
    inversion Hr; subst. right. right. right.
    split; [done|]. split.
    { simpl in *.
      repeat match goal with
             | Hx : files ?x = _ |- context [files ?x] => rewrite Hx
             end.
      by rewrite insert_insert_eq. }
    exists (raised (Call_upload_text_to_gcs ob (sanitize_filename fname) text) e).
    split; [|right; by eexists].
    rewrite !marks_app, Hm0, Hm5. simpl. by rewrite ?app_nil_r.
Qed.

End MarkedMain.


Section MainMarks.
Context `{Env}.

Lemma main_marks_inv a s o s' ev :
  main a s = Run o s' ev → main_marks a s (Run o s' ev).
Proof.
  intros Hr. unfold main in Hr. unfold main_marks. cbn [out fin log].
  unbind Hr as o0 s0 ev0 Hm. pose proof Hm as Hreg0.
  pose proof (get_gcloud_region_reported s) as Hrep. rewrite Hm in Hrep.
  pose proof (dry_get_gcloud_region s) as Hd0. rewrite Hm in Hd0. simpl in Hd0.
  apply get_gcloud_region_inv in Hm as (Hf0 & region & -> & Hc0).
  rewrite <- (marks_dry _ Hd0) in Hc0. clear Hd0.
  destruct Hr as (ev1 & Hr & ->). exists region.
  split; [split; [by apply Hrep|by rewrite Hreg0]|].
  fold (the_location a region) in Hr. fold (the_model a) in Hr.
  set (loc := the_location a region) in *.
  unbind Hr as o1 s1 ev2 Hm. pose proof Hm as Hask.
  apply ask_inv in Hm as (Hf1 & found & -> & ->).
  destruct Hr as (ev3 & Hr & ->).
  destruct found; simpl in Hr.
  2:{ left. unbind Hr as o2 s2 ev4 Hm. inversion Hm; subst; clear Hm.
      destruct Hr as (ev5 & Hr & ->). inversion Hr; subst.
      rewrite !marks_app, Hc0. split; [done|]. split; [congruence|done]. }
  unbind Hr as o2 s2 ev4 Hm. pose proof Hm as Hproj.
  pose proof (main_infer_project_returns _ _ _ _ _ Hm) as [project_id ->].
  pose proof (main_infer_project_explicit _ _ _ _ _ Hm) as Hexp.
  pose proof (marks_inner _ _ _ _ _ (dry_main_infer_project a)
                (main_infer_project_inner a) Hm) as Hc2.
  apply main_infer_project_inner in Hm as (Hf2 & _ & _).
  destruct Hr as (ev5 & Hr & ->).
  destruct (negb (Str.truthy_opt project_id) || _) eqn:Hcheck.
  { left. unbind Hr as o3 s3 ev6 Hm. inversion Hm; subst; clear Hm.
    destruct Hr as (ev7 & Hr & ->). inversion Hr; subst.
    rewrite !marks_app, Hc0, Hc2. split; [done|]. split; [congruence|done]. }
  right. exists (from_flag project_id ""). split.
  { apply orb_false_iff in Hcheck as [Ht Hu]. apply negb_false_iff in Ht.
    destruct project_id as [pid|]; [|done]. simpl in *.
    split.
    - split; [done|]. split.
      + intros ->. by rewrite String.eqb_refl in Hu.
      + intros Hp. apply Hexp in Hp. by injection Hp as <-.
    - unfold state_before_project. rewrite Hreg0. cbn [fin].
      rewrite Hask. cbn [fin]. by rewrite Hproj. }
  clear Hcheck Hexp Hreg0 Hask Hproj.
  set (pid := from_flag project_id "") in *.
  unbind Hr as o3 s3 ev6 Hm. inversion Hm; subst o3 s3 ev6; clear Hm.
  destruct Hr as (ev7 & Hr & ->).
  unbind Hr as o4 s4 ev8 Hm.
  apply main_handle_buckets_marks in Hm as (Hf4 & [(-> & Hc4)|(e & -> & Hc4)]).
  2:{ left. destruct Hr as (-> & -> & ->). exists e, (marks ev8).
      split; [done|]. split; [congruence|]. split; [done|].
      rewrite !marks_app, Hc0, Hc2. done. }
  right. destruct Hr as (ev9 & Hr & ->). simpl in Hr.
  unbind Hr as o5 s5 ev10 Hm.
  apply (ask_inv Time_time) in Hm as (Hf5 & now & -> & ->).
  destruct Hr as (ev11 & Hr & ->). exists now.
  fold (the_blob_name a now) in Hr. set (blob := the_blob_name a now) in *.
  unbind Hr as o6 s6 ev12 Hm.
  apply try_except_inv in Hm as (o7 & s7 & ev13 & Hup & Hm).
  apply upload_to_gcs_marks in Hup as (Hf7 & [(-> & Hc7)|(e & -> & Hc7)]).
  2:{ left. destruct Hm as (ev14 & Hm & ->).
      unbind Hm as o8 s8 ev15 Hp. inversion Hp; subst o8 s8 ev15; clear Hp.
      destruct Hm as (ev16 & Hm & ->). inversion Hm; subst.
      destruct Hr as (-> & -> & ->). exists e. split; [done|].
      split; [congruence|].
      rewrite !marks_app, Hc0, Hc2, Hc4, Hc7. done. }
  right. destruct Hm as (-> & -> & ->). destruct Hr as (ev14 & Hr & ->).
  apply try_finally_inv in Hr
    as (o8 & s8 & ev15 & o9 & ev16 & Hbody & Hfin & -> & Ho).
  apply main_cleanup_marks in Hfin as (Hf9 & -> & Hclean).
  subst o.
  apply try_except_inv in Hbody as (o10 & s10 & ev17 & Hsave & Hbody).
  apply main_transcribe_and_save_marks in Hsave.
  assert (files s7 = files s) as Hfs by congruence. rewrite Hfs in Hsave.
  exists o10, (marks ev17), (marks ev16).
  assert (o8 = match o10 with Ret _ => Ret tt | _ => Exit 1 end
          ∧ files s' = files s10 ∧ marks ev15 = marks ev17) as (-> & Hfs' & Hm15).
  { destruct o10 as [[]|e|c].
    - destruct Hbody as (-> & -> & ->). done.
    - destruct Hbody as (ev18 & Hbody & ->).
      unbind Hbody as o11 s11 ev19 Hp. inversion Hp; subst o11 s11 ev19; clear Hp.
      destruct Hbody as (ev20 & Hbody & ->).
      unbind Hbody as o12 s12 ev21 Hp. inversion Hp; subst o12 s12 ev21; clear Hp.
      destruct Hbody as (ev22 & Hbody & ->). inversion Hbody; subst.
      split; [done|]. split; [done|].
      rewrite !marks_app. simpl. by rewrite app_nil_r.
    - exfalso. destruct Hsave as [(e & ? & _)|(t & mk & _ & Hs)]; [done|].
      destruct Hs as [(e & ? & _)|[(e & ? & _)|[(e & ? & _)|(? & _)]]]; done. }
  rewrite Hfs'. split; [|done].
  rewrite !marks_app, Hc0, Hc2, Hc4, Hc7, Hm15. done.
Qed.

(** The run as a whole, landmark by landmark. *)
Lemma main_marks_run a s : main_marks a s (main a s).
Proof. destruct (main a s) as [o s' ev] eqn:Hr. by apply main_marks_inv. Qed.

End MainMarks.


(** Unfold the landmarks of a run into its paths. *)
Ltac marked_paths a s :=
  let Hs := fresh "Hstory" in
  pose proof (main_marks_run a s) as Hs;
  destruct Hs as
    (region & Hregion &
     [(Ho & Hfiles & Hmarks)
     |(pid & Hpid &
       [(e & cl & Ho & Hfiles & Hprov & Hmarks)
       |(now &
         [(e & Ho & Hfiles & Hmarks)
         |(o1 & m1 & m2 & Hmarks & Hsave & Hclean & Ho)])])]).

(** Unfold the landmarks of the body of the [try] into its cases. *)
Ltac save_cases Hsave :=
  let e := fresh "e" in let text := fresh "text" in let mk := fresh "mk" in
  let tail := fresh "tail" in let uri := fresh "uri" in
  destruct Hsave as
    [(e & Ho1 & Hm1 & Hf1)
    |(text & mk & Hmk &
      [(e & Ho1 & Hf1 & Hm1)
      |[(e & Ho1 & Hf1 & Hm1)
       |[(e & Ho1 & Hf1 & Hm1)
        |(Ho1 & Hf1 & tail & Hm1 & [(uri & Htail)|(e & Htail)])]]])];
  try (destruct Hmk as [Hmk|Hmk]; rewrite Hmk in Hm1; clear Hmk);
  try rewrite Htail in Hm1; rewrite Hm1 in *; clear Hm1.

Section Landmarks.
Context `{Env}.

Lemma in_marks (e : event) (l : list event) :
  is_mark e = true → In e l ↔ In e (marks l).
Proof.
  intros He. unfold marks. rewrite List.filter_In. tauto.
Qed.

(** Filtering landmarks can be done on the landmarks alone. *)
Lemma filter_marks (p : event → bool) (l : list event) :
  (∀ e, p e = true → is_mark e = true) →
  List.filter p l = List.filter p (marks l).
Proof.
  intros Hp. induction l as [|x l IH]; simpl; [done|].
  destruct (is_mark x) eqn:Hx; simpl; [by rewrite IH|].
  destruct (p x) eqn:Hy; [|done]. apply Hp in Hy. congruence.
Qed.

(** X10.  When [ensure_bucket] raises, nothing in [main] catches it: the
    run ends with that exception, that failure is its last landmark, no
    local file has changed and no upload was attempted. *)
Theorem ensure_bucket_failure_escapes (a : args) (s : state) (b l : string)
    (err : exn) :
  In (Raised (Call_ensure_bucket b l) err) (log (main a s)) →
  out (main a s) = Raise err
  ∧ files (fin (main a s)) = files s
  ∧ List.filter is_upload_entry (log (main a s)) = []
  ∧ ∃ before,
      marks (log (main a s)) = before ++ raised (Call_ensure_bucket b l) err.
Proof.
  intros Hin%in_marks; [|done].
  rewrite (filter_marks is_upload_entry) by (by intros [| | | | |[]| |]).
  marked_paths a s; rewrite Hmarks in *.
  - in_cases Hin.
  - rewrite Ho, Hfiles. unfold provision_failure in Hprov.
    destruct (Str.truthy_opt (bucket a)), Hprov as [(? & ->)| ->];
      try discriminate;
      in_cases Hin; inversion Hin; subst;
      (split; [done|]); (split; [done|]); (split; [done|]);
      first [ by exists (returned Call_get_gcloud_region region)
            | by eexists (returned Call_get_gcloud_region region
                          ++ returned (Call_ensure_bucket _ _) None) ].
  - unfold ensured_buckets in *.
    destruct (Str.truthy_opt (bucket a)); in_cases Hin.
  - unfold ensured_buckets, the_inference_call in *.
    destruct (Str.truthy_opt (bucket a)), (Str.truthy_opt (api_key a)),
      (keep_gcs a);
      save_cases Hsave;
      try destruct Hclean as [->|(e' & ->)]; try rewrite Hclean in *;
      in_cases Hin.
Qed.

(** X13.  A run of [main] that returns normally has saved the
    transcription: an inference function returned a text, that text was
    written to the local output file, and the file holds it. *)
Theorem normal_end_means_written (a : args) (s : state) :
  out (main a s) = Ret tt →
  ∃ inf text,
    is_inference_entry (Enter inf) = true
    ∧ In (Return inf (Some text)) (log (main a s))
    ∧ In (Ext (File_write (the_output_path a) text) true) (log (main a s))
    ∧ files (fin (main a s)) !! the_output_path a = Some text.
Proof.
  intros Hret.
  assert (∀ x, is_mark x = true → In x (marks (log (main a s))) →
               In x (log (main a s))) as Hback.
  { intros x Hx Hi. by apply in_marks. }
  marked_paths a s; rewrite Ho in Hret; try discriminate.
  exists (the_inference_call a pid (the_location a region)
            ("gs://" +:+ the_staging_bucket a pid (the_location a region)
               +:+ "/" +:+ the_blob_name a now)).
  assert (is_inference_entry
            (Enter (the_inference_call a pid (the_location a region)
                      ("gs://" +:+ the_staging_bucket a pid (the_location a region)
                         +:+ "/" +:+ the_blob_name a now))) = true) as Hinf.
  { unfold the_inference_call. by destruct (Str.truthy_opt (api_key a)). }
  set (inf := the_inference_call _ _ _ _) in *. clearbody inf.
  save_cases Hsave; subst o1; try discriminate;
    exists text; (split; [done|]);
    rewrite Hf1, lookup_insert_eq; (split; [|split; [|done]]);
    (apply Hback; [by destruct inf|]); rewrite Hmarks, !in_app_iff; simpl; tauto.
Qed.

(** X14.  A failed upload is the last landmark of its run: the run exits
    with status 1 without any inference, local file, mirror or cleanup. *)
Theorem upload_failure_ends_the_run (a : args) (s : state) (b p n : string)
    (err : exn) :
  In (Raised (Call_upload_to_gcs b p n) err) (log (main a s)) →
  out (main a s) = Exit 1
  ∧ files (fin (main a s)) = files s
  ∧ ∃ before, marks (log (main a s)) = before ++ raised (Call_upload_to_gcs b p n) err
              ∧ List.filter is_inference_entry before = []
              ∧ List.filter is_file_event before = [].
Proof.
  intros Hin%in_marks; [|done].
  marked_paths a s; rewrite Hmarks in *.
  - in_cases Hin.
  - unfold provision_failure in Hprov.
    destruct (Str.truthy_opt (bucket a)), Hprov as [(? & ->)| ->]; in_cases Hin.
  - split; [done|]. split; [done|].
    exists (returned Call_get_gcloud_region region
            ++ ensured_buckets a pid (the_location a region)).
    unfold ensured_buckets in *.
    destruct (Str.truthy_opt (bucket a)); in_cases Hin; inversion Hin; subst;
      done.
  - exfalso. unfold ensured_buckets, the_inference_call in *.
    destruct (Str.truthy_opt (bucket a)), (Str.truthy_opt (api_key a)),
      (keep_gcs a);
      save_cases Hsave;
      try destruct Hclean as [->|(e' & ->)]; try rewrite Hclean in *;
      in_cases Hin.
Qed.

(** X15.  When the write to the output file raises, the file is the run's
    output file, which [open] had opened for writing, and the text is the
    one the inference function returned; the run ends with status 1 and
    nothing is mirrored. *)
Theorem failed_write_is_fatal (a : args) (s : state) (path text : string) :
  In (Ext (File_write path text) false) (log (main a s)) →
  path = the_output_path a
  ∧ In (Ext (File_open_w path) true) (log (main a s))
  ∧ (∃ inf, is_inference_entry (Enter inf) = true
            ∧ In (Return inf (Some text)) (log (main a s)))
  ∧ exit_code (out (main a s)) = 1
  ∧ List.filter is_mirror_entry (log (main a s)) = [].
Proof.
  intros Hin%in_marks; [|done].
  assert (∀ x, is_mark x = true → In x (marks (log (main a s))) →
               In x (log (main a s))) as Hback.
  { intros x Hx Hi. by apply in_marks. }
  rewrite (filter_marks is_mirror_entry) by (by intros [| | | | |[]| |]).
  marked_paths a s; rewrite Hmarks in *.
  - in_cases Hin.
  - unfold provision_failure in Hprov.
    destruct (Str.truthy_opt (bucket a)), Hprov as [(? & ->)| ->]; in_cases Hin.
  - unfold ensured_buckets in *.
    destruct (Str.truthy_opt (bucket a)); in_cases Hin.
  - rewrite Ho.
    assert (is_inference_entry
              (Enter (the_inference_call a pid (the_location a region)
                        ("gs://" +:+ the_staging_bucket a pid (the_location a region)
                           +:+ "/" +:+ the_blob_name a now))) = true) as Hinf.
    { unfold the_inference_call. by destruct (Str.truthy_opt (api_key a)). }
    set (inf := the_inference_call _ _ _ _) in *.
    clearbody inf.
    unfold ensured_buckets in *.
    destruct (Str.truthy_opt (bucket a)), (keep_gcs a);
      save_cases Hsave; subst o1;
      try destruct Hclean as [->|(e' & ->)]; try rewrite Hclean in *;
      in_cases Hin; inversion Hin; subst;
      (split; [done|]);
      (split; [apply Hback; [done|]; simpl; auto 20|]);
      (split; [exists inf; split; [done|]; apply Hback; [done|]; simpl; auto 20|]);
      (split; [done|]); simpl; by destruct inf.
Qed.

(** X16.  The only local file a run changes is its output file, and the
    only file-system calls it makes are the creation of the output
    directory and the opening and writing of that file. *)
Theorem only_the_output_file_changes (a : args) (s : state) :
  (∀ path, path ≠ the_output_path a →
           files (fin (main a s)) !! path = files s !! path)
  ∧ ∀ e ok, In (Ext e ok) (log (main a s)) →
      is_file_event (Ext e ok) = true →
      e = Os_makedirs local_output_dir
      ∨ e = File_open_w (the_output_path a)
      ∨ ∃ text, e = File_write (the_output_path a) text.
Proof.
  split.
  - intros path Hne.
    marked_paths a s; try by rewrite Hfiles.
    save_cases Hsave; rewrite Hf1, ?lookup_insert_ne; done.
  - intros x ok Hin Hfile. apply in_marks in Hin; [|by unfold is_mark; rewrite Hfile, orb_true_r].
    marked_paths a s; rewrite Hmarks in *.
    + in_cases Hin; by inversion Hin; subst.
    + unfold provision_failure in Hprov.
      destruct (Str.truthy_opt (bucket a)), Hprov as [(? & ->)| ->];
        in_cases Hin; by inversion Hin; subst.
    + unfold ensured_buckets in *.
      destruct (Str.truthy_opt (bucket a)); in_cases Hin; by inversion Hin; subst.
    + unfold ensured_buckets, the_inference_call in *.
      destruct (Str.truthy_opt (bucket a)), (Str.truthy_opt (api_key a)),
        (keep_gcs a);
        save_cases Hsave;
        try destruct Hclean as [->|(e' & ->)]; try rewrite Hclean in *;
        in_cases Hin; inversion Hin; subst; eauto.
Qed.

End Landmarks.


Section Arguments.
Context `{Env}.

(** X17.  Whichever inference function a run enters, it is given the
    project that this run's project lookup returned, the location made of
    [--location] and of what this run's region lookup returned, the model ([--preview]
    wins over [--model], which wins over the default), the fixed prompt,
    and the [gs://] URI of the blob that this run's upload returned;
    [transcribe_video_genai] is also given the API key as it was typed. *)
Theorem inference_arguments (a : args) (s : state) (inf : call) :
  is_inference_entry (Enter inf) = true →
  In (Enter inf) (log (main a s)) →
  ∃ pid region now,
    let loc := the_location a region in
    let st := the_staging_bucket a pid loc in
    let uri := "gs://" +:+ st +:+ "/" +:+ the_blob_name a now in
    let mdl := if preview a then "gemini-3-pro-preview"
               else match model a with Some m => m | None => "gemini-2.5-pro" end in
    out (get_gcloud_region s) = Ret region
    ∧ out (main_infer_project a (state_before_project a s)) = Ret (Some pid)
    ∧ project_resolved a pid ∧ region_reported region
    ∧ In (Return (Call_upload_to_gcs st (file_path a) (the_blob_name a now))
            (Some uri)) (log (main a s))
    ∧ match api_key a with
      | Some (String c k) =>
          inf = Call_transcribe_video_genai (String c k) pid loc uri mdl default_prompt
      | _ => inf = Call_transcribe_video pid loc mdl uri default_prompt
      end.
Proof.
  intros Hinf Hin%in_marks; [|done].
  assert (∀ x, is_mark x = true → In x (marks (log (main a s))) →
               In x (log (main a s))) as Hback.
  { intros x Hx Hi. by apply in_marks. }
  marked_paths a s; rewrite Hmarks in *.
  - in_cases Hin. by inversion Hin; subst.
  - unfold provision_failure in Hprov.
    destruct (Str.truthy_opt (bucket a)), Hprov as [(? & ->)| ->];
      in_cases Hin; by inversion Hin; subst.
  - unfold ensured_buckets in *.
    destruct (Str.truthy_opt (bucket a)); in_cases Hin; by inversion Hin; subst.
  - exists pid, region, now. cbv zeta.
    destruct Hregion as [Hregion Hreg], Hpid as [Hpid Hproj].
    do 4 (split; [done|]). split.
    { apply Hback; [done|]. rewrite !in_app_iff. simpl. tauto. }
    clear Hback.
    assert (inf = the_inference_call a pid (the_location a region)
                    ("gs://" +:+ the_staging_bucket a pid (the_location a region)
                       +:+ "/" +:+ the_blob_name a now)) as ->.
    { unfold ensured_buckets in *.
      set (c := the_inference_call _ _ _ _) in *.
      assert (is_inference_entry (Enter c) = true) as Hc.
      { unfold c, the_inference_call. by destruct (Str.truthy_opt (api_key a)). }
      clearbody c.
      destruct (Str.truthy_opt (bucket a)), (keep_gcs a);
        save_cases Hsave;
        try destruct Hclean as [->|(e' & ->)]; try rewrite Hclean in *;
        in_cases Hin; inversion Hin; subst; done. }
    unfold the_inference_call, the_model, from_flag.
    by destruct (api_key a) as [[|c k]|].
Qed.

(** X18.  [ensure_bucket] is only ever called on the two names derived
    from the project that this run's project lookup returned, with the
    location made of [--location] and of what this run's region lookup
    returned; on the staging name only when there is no non-empty
    [--bucket]. *)
Theorem ensure_bucket_targets (a : args) (s : state) (b l : string) :
  In (Enter (Call_ensure_bucket b l)) (log (main a s)) →
  ∃ pid region,
    out (get_gcloud_region s) = Ret region
    ∧ out (main_infer_project a (state_before_project a s)) = Ret (Some pid)
    ∧ project_resolved a pid ∧ region_reported region
    ∧ l = the_location a region
    ∧ (b = get_output_bucket_name pid
       ∨ (b = get_staging_bucket_name pid l ∧ Str.truthy_opt (bucket a) = false)).
Proof.
  intros Hin%in_marks; [|done].
  marked_paths a s; rewrite Hmarks in *.
  - in_cases Hin.
  - exists pid, region.
    destruct Hregion as [Hregion Hreg], Hpid as [Hpid Hproj].
    do 4 (split; [done|]).
    unfold provision_failure in Hprov.
    destruct (Str.truthy_opt (bucket a)), Hprov as [(? & ->)| ->];
      in_cases Hin; inversion Hin; subst; auto.
  - exists pid, region.
    destruct Hregion as [Hregion Hreg], Hpid as [Hpid Hproj].
    do 4 (split; [done|]).
    unfold ensured_buckets in *.
    destruct (Str.truthy_opt (bucket a)); in_cases Hin; inversion Hin; subst; auto.
  - exists pid, region.
    destruct Hregion as [Hregion Hreg], Hpid as [Hpid Hproj].
    do 4 (split; [done|]).
    unfold ensured_buckets, the_inference_call in *.
    destruct (Str.truthy_opt (bucket a)), (Str.truthy_opt (api_key a)),
      (keep_gcs a);
      save_cases Hsave;
      try destruct Hclean as [->|(e' & ->)]; try rewrite Hclean in *;
      in_cases Hin; inversion Hin; subst; auto.
Qed.


End Arguments.


Section Order.
Context `{Env}.

Lemma before_split {A} (p : A → bool) (l1 : list A) x l2 :
  p x = true → List.filter p l1 = [] → before p (l1 ++ x :: l2) = l1.
Proof.
  intros Hx. induction l1 as [|y l1 IH]; simpl; [by rewrite Hx|].
  destruct (p y); [done|]. intros Hl. by rewrite IH.
Qed.

Lemma before_unique {A} (p : A → bool) (l1 : list A) x l2 :
  p x = true → (List.length (List.filter p (l1 ++ x :: l2)) ≤ 1)%nat →
  before p (l1 ++ x :: l2) = l1.
Proof.
  intros Hx Hlen. apply before_split; [done|].
  rewrite List.filter_app in Hlen. simpl in Hlen. rewrite Hx in Hlen.
  rewrite List.length_app in Hlen. simpl in Hlen.
  destruct (List.filter p l1); [done|simpl in Hlen; lia].
Qed.

(** X20.  The mirror comes after the local copy: by the time
    [upload_text_to_gcs] is entered, the text it is given has been
    returned by the inference function and written to the local output
    file. *)
Theorem local_copy_precedes_mirror (a : args) (s : state)
    (pre post : list event) (ob name content : string) :
  log (main a s) = pre ++ Enter (Call_upload_text_to_gcs ob name content) :: post →
  In (Ext (File_write (the_output_path a) content) true) pre
  ∧ ∃ inf, is_inference_entry (Enter inf) = true
           ∧ In (Return inf (Some content)) pre.
Proof.
  intros Hlog.
  assert (marks (log (main a s))
          = marks pre ++ Enter (Call_upload_text_to_gcs ob name content)
                         :: marks post) as Hsplit.
  { rewrite Hlog, marks_app. done. }
  assert (∀ x, In x (marks pre) → In x pre) as Hback.
  { intros x Hx. unfold marks in Hx. apply List.filter_In in Hx. tauto. }
  assert (In (Enter (Call_upload_text_to_gcs ob name content))
            (marks (log (main a s)))) as Hin.
  { rewrite Hsplit. apply in_elt. }
  assert ((List.length (List.filter is_mirror_entry (marks (log (main a s)))) ≤ 1)%nat
          → marks pre = before is_mirror_entry (marks (log (main a s)))) as Hpre.
  { intros Hlen. rewrite Hsplit in *. symmetry. by apply before_unique. }
  clear Hsplit Hlog.
  marked_paths a s; rewrite Hmarks in *.
  - in_cases Hin.
  - unfold provision_failure in Hprov.
    destruct (Str.truthy_opt (bucket a)), Hprov as [(? & ->)| ->]; in_cases Hin.
  - unfold ensured_buckets in *.
    destruct (Str.truthy_opt (bucket a)); in_cases Hin.
  - unfold ensured_buckets, the_inference_call in *.
    destruct (Str.truthy_opt (bucket a)), (Str.truthy_opt (api_key a)),
      (keep_gcs a);
      save_cases Hsave;
      try destruct Hclean as [->|(e' & ->)]; try rewrite Hclean in *;
      in_cases Hin; inversion Hin; subst;
      (split; [|eexists; split; [|apply Hback]]);
      try apply Hback; try (rewrite Hpre; [|simpl; lia]); simpl; auto 20;
      reflexivity.
Qed.

End Order.


(** ** Before the buckets *)

Section Early.
Context `{Env}.

(** X21.  A missing input file stops the run at once: after the region
    lookup the script checks the path, prints the error and exits with
    status 1, without looking up a project or calling the storage. *)
Theorem missing_file_stops (a : args) (s : state) :
  fst (answer (Os_path_exists (file_path a))
         (outside (fin (get_gcloud_region s)))) = false →
  out (main a s) = Exit 1
  ∧ files (fin (main a s)) = files s
  ∧ log (main a s)
    = log (get_gcloud_region s)
      ++ [Ask (Os_path_exists (file_path a));
          Print (("Error: File '" +:+ file_path a +:+ "' not found.") +:+ Str.nl)].
Proof.
  intros Hmiss. unfold main, bind.
  destruct (get_gcloud_region s) as [o0 s0 ev0] eqn:Hregion.
  apply get_gcloud_region_inv in Hregion as (Hf0 & region & -> & _).
  simpl in *. unfold ask.
  destruct (answer (Os_path_exists (file_path a)) (outside s0)) as [found w].
  simpl in Hmiss. subst found. simpl. done.
Qed.

(** X22.  Looking for a project never fails and never touches a file.
    A non-empty [--project] is taken as it is, without any lookup;
    otherwise the ambient credentials are asked first, and gcloud only if
    they raised or named no project; if gcloud is asked and raises, no
    project is found. *)
Theorem project_lookup_order (a : args) (s : state) :
  ∃ v,
    out (main_infer_project a s) = Ret v
    ∧ files (fin (main_infer_project a s)) = files s
    ∧ ((Str.truthy_opt (project a) = true ∧ v = project a
        ∧ log (main_infer_project a s) = [])
       ∨ (Str.truthy_opt (project a) = false
          ∧ ((Str.truthy_opt v = true
              ∧ fst (handle Google_auth_default (outside s)) = Ok v
              ∧ log (main_infer_project a s) = [Ext Google_auth_default true])
             ∨ ∃ ok ok',
                 log (main_infer_project a s)
                 = [Ext Google_auth_default ok;
                    Ext (Gcloud_config_get_value "project") ok']
                 ∧ match fst (handle Google_auth_default (outside s)) with
                   | Ok p => ok = true ∧ Str.truthy_opt p = false
                   | Err _ => ok = false
                   end
                 ∧ (ok' = false → Str.truthy_opt v = false)))).
Proof.
  unfold main_infer_project, bind, try_except_all, ext, ret.
  destruct (Str.truthy_opt (project a)) eqn:Ht; simpl.
  { rewrite Ht. simpl. exists (project a). split; [done|]. split; [done|].
    left. done. }
  destruct (handle Google_auth_default (outside s)) as [[p|e] w]; simpl.
  - destruct (Str.truthy_opt p) eqn:Hp; simpl.
    { exists p. split; [done|]. split; [done|]. right. split; [done|].
      left. done. }
    destruct (handle (Gcloud_config_get_value "project") w) as [[stdout|e] w'];
      simpl.
    + eexists. split; [done|]. split; [done|]. right. split; [done|].
      right. exists true, true. done.
    + exists p. split; [done|]. split; [done|]. right. split; [done|].
      right. exists true, false. done.
  - rewrite Ht. simpl.
    destruct (handle (Gcloud_config_get_value "project") w) as [[stdout|e'] w'];
      simpl.
    + eexists. split; [done|]. split; [done|]. right. split; [done|].
      right. exists false, true. done.
    + exists (project a). split; [done|]. split; [done|]. right.
      split; [done|]. right. exists false, false. done.
Qed.

Lemma explicit_project_silent (a : args) :
  Str.truthy_opt (project a) = true →
  silent is_project_lookup (main_infer_project a).
Proof.
  intros Ht s. unfold main_infer_project, bind, ret. rewrite Ht. simpl.
  by rewrite Ht.
Qed.

(** X23.  With a non-empty [--project] the run never asks the ambient
    credentials or gcloud for a project, however it goes on. *)
Theorem explicit_project_skips_lookups (a : args) (s : state) (ok : bool) :
  Str.truthy_opt (project a) = true →
  ¬ In (Ext Google_auth_default ok) (log (main a s))
  ∧ ¬ In (Ext (Gcloud_config_get_value "project") ok) (log (main a s)).
Proof.
  intros Ht.
  assert (silent is_project_lookup (main a)) as Hsilent.
  { unfold main.
    repeat first [apply explicit_project_silent; assumption | silent_step]. }
  specialize (Hsilent s).
  assert (∀ e, is_project_lookup e = true → ¬ In e (log (main a s))) as Hnot.
  { intros e He Hin.
    assert (In e (List.filter is_project_lookup (log (main a s)))) as Hf
      by (apply List.filter_In; done).
    by rewrite Hsilent in Hf. }
  split; by apply Hnot.
Qed.

End Early.


(** ** The orchestrator on the scripted world *)

Lemma ensure_bucket_failure_escapes_witness :
  out (mock_run no_storage_client plain_args) = Raise "boom"
  ∧ files (fin (mock_run no_storage_client plain_args)) = ∅
  ∧ List.filter is_upload_entry (log (mock_run no_storage_client plain_args)) = []
  ∧ ∃ before,
      marks (log (mock_run no_storage_client plain_args))
      = before ++ raised (Call_ensure_bucket
                            "gemini-transcriber-example-com-my-proj-us-central1"
                            "us-central1") "boom".
Proof.
  apply (@ensure_bucket_failure_escapes (mock_env no_storage_client) plain_args
           (mock_start no_storage_client)
           "gemini-transcriber-example-com-my-proj-us-central1" "us-central1"
           "boom").
  vm_compute. pick_member.
Defined.

Lemma normal_end_means_written_witness :
  ∃ inf text,
    is_inference_entry (Enter inf) = true
    ∧ In (Return inf (Some text)) (log (mock_run sunny plain_args))
    ∧ In (Ext (File_write (@the_output_path (mock_env sunny) plain_args) text) true)
        (log (mock_run sunny plain_args))
    ∧ files (fin (mock_run sunny plain_args))
        !! @the_output_path (mock_env sunny) plain_args = Some text.
Proof.
  apply (@normal_end_means_written (mock_env sunny) plain_args (mock_start sunny)).
  vm_compute. reflexivity.
Defined.

Lemma inference_failure_is_fatal_witness :
  out (mock_run inference_raises plain_args) = Exit 1
  ∧ files (fin (mock_run inference_raises plain_args)) = ∅
  ∧ List.filter is_mirror_entry (log (mock_run inference_raises plain_args)) = [].
Proof.
  apply (@inference_failure_is_fatal (mock_env inference_raises) plain_args
           (mock_start inference_raises)
           (Call_transcribe_video "example.com:my-proj" "us-central1"
              "gemini-2.5-pro" staged_uri default_prompt)
           "boom").
  - reflexivity.
  - vm_compute. pick_member.
Defined.

Lemma mirror_matches_local_witness :
  "clip_one.txt"
  = @sanitize_filename (mock_env sunny) (OsPath.basename (file_path plain_args))
  ∧ files (fin (mock_run sunny plain_args)) !! @the_output_path (mock_env sunny) plain_args
    = Some "Hello world"
  ∧ (∃ inf, is_inference_entry (Enter inf) = true
            ∧ In (Return inf (Some "Hello world")) (log (mock_run sunny plain_args)))
  ∧ ∃ l, In (Return (Call_ensure_bucket
                       "example-com-my-proj-gemini-video-transcribe" l) None)
           (log (mock_run sunny plain_args)).
Proof.
  apply (@mirror_matches_local (mock_env sunny) plain_args (mock_start sunny)
           "example-com-my-proj-gemini-video-transcribe" "clip_one.txt"
           "Hello world").
  vm_compute. pick_member.
Defined.

Lemma upload_failure_ends_the_run_witness :
  out (mock_run upload_raises plain_args) = Exit 1.
Proof.
  apply (@upload_failure_ends_the_run (mock_env upload_raises) plain_args
           (mock_start upload_raises)
           "gemini-transcriber-example-com-my-proj-us-central1" "in/Clip One.mp4"
           "gemini-transcriber-staging/1700000000_Clip One.mp4" "boom").
  vm_compute. pick_member.
Defined.

Lemma failed_write_is_fatal_witness :
  exit_code (out (mock_run write_raises plain_args)) = 1
  ∧ List.filter is_mirror_entry (log (mock_run write_raises plain_args)) = [].
Proof.
  pose proof (@failed_write_is_fatal (mock_env write_raises) plain_args
                (mock_start write_raises)
                "/opt/app/workspace/output/clip_one.txt" "Hello world") as Hw.
  destruct Hw as (_ & _ & _ & Hout & Hmirror).
  - vm_compute. pick_member.
  - split; [exact Hout|exact Hmirror].
Defined.

Lemma inference_arguments_witness :
  ∃ pid region now,
    out (@get_gcloud_region (mock_env sunny) (mock_start sunny)) = Ret region
    ∧ out (@main_infer_project (mock_env sunny) preview_args
             (@state_before_project (mock_env sunny) preview_args (mock_start sunny)))
      = Ret (Some pid)
    ∧ project_resolved preview_args pid ∧ region_reported region
    ∧ In (Return (Call_upload_to_gcs
                    (the_staging_bucket preview_args pid
                       (the_location preview_args region))
                    "in/Clip One.mp4" (the_blob_name preview_args now))
            (Some ("gs://" +:+ the_staging_bucket preview_args pid
                                 (the_location preview_args region)
                     +:+ "/" +:+ the_blob_name preview_args now)))
         (log (mock_run sunny preview_args))
    ∧ Call_transcribe_video_genai "k-123" "example.com:my-proj" "europe-west4"
        "gs://gemini-transcriber-example-com-my-proj-europe-west4/gemini-transcriber-staging/1700000000_Clip One.mp4"
        "gemini-3-pro-preview" default_prompt
      = Call_transcribe_video_genai "k-123" pid (the_location preview_args region)
          ("gs://" +:+ the_staging_bucket preview_args pid
                         (the_location preview_args region)
             +:+ "/" +:+ the_blob_name preview_args now)
          "gemini-3-pro-preview" default_prompt.
Proof.
  apply (@inference_arguments (mock_env sunny) preview_args (mock_start sunny)
           (Call_transcribe_video_genai "k-123" "example.com:my-proj"
              "europe-west4"
              "gs://gemini-transcriber-example-com-my-proj-europe-west4/gemini-transcriber-staging/1700000000_Clip One.mp4"
              "gemini-3-pro-preview" default_prompt)).
  - reflexivity.
  - vm_compute. pick_member.
Defined.

Lemma ensure_bucket_targets_witness :
  ∃ pid region,
    out (@get_gcloud_region (mock_env sunny) (mock_start sunny)) = Ret region
    ∧ out (@main_infer_project (mock_env sunny) plain_args
             (@state_before_project (mock_env sunny) plain_args (mock_start sunny)))
      = Ret (Some pid)
    ∧ project_resolved plain_args pid ∧ region_reported region
    ∧ "us-central1" = the_location plain_args region
    ∧ ("gemini-transcriber-example-com-my-proj-us-central1"
       = get_output_bucket_name pid
       ∨ ("gemini-transcriber-example-com-my-proj-us-central1"
          = get_staging_bucket_name pid "us-central1"
          ∧ Str.truthy_opt (bucket plain_args) = false)).
Proof.
  apply (@ensure_bucket_targets (mock_env sunny) plain_args (mock_start sunny)
           "gemini-transcriber-example-com-my-proj-us-central1" "us-central1").
  vm_compute. pick_member.
Defined.


Lemma only_the_output_file_changes_witness :
  files (fin (mock_run sunny plain_args)) !! "in/Clip One.mp4" = None.
Proof.
  apply (proj1 (@only_the_output_file_changes (mock_env sunny) plain_args
                  (mock_start sunny)) "in/Clip One.mp4").
  vm_compute. discriminate.
Defined.

Lemma missing_file_stops_witness :
  out (mock_run sunny missing_file_args) = Exit 1.
Proof.
  apply (@missing_file_stops (mock_env sunny) missing_file_args (mock_start sunny)).
  reflexivity.
Defined.

Lemma explicit_project_skips_lookups_witness :
  ¬ In (Ext Google_auth_default true) (log (mock_run sunny plain_args))
  ∧ ¬ In (Ext (Gcloud_config_get_value "project") true)
        (log (mock_run sunny plain_args)).
Proof.
  apply (@explicit_project_skips_lookups (mock_env sunny) plain_args
           (mock_start sunny) true).
  reflexivity.
Defined.


Lemma local_copy_precedes_mirror_witness :
  In (Ext (File_write (@the_output_path (mock_env sunny) plain_args) "Hello world") true)
    (List.firstn 50 (log (mock_run sunny plain_args)))
  ∧ ∃ inf, is_inference_entry (Enter inf) = true
           ∧ In (Return inf (Some "Hello world"))
               (List.firstn 50 (log (mock_run sunny plain_args))).
Proof.
  apply (@local_copy_precedes_mirror (mock_env sunny) plain_args (mock_start sunny)
           _ (List.skipn 51 (log (mock_run sunny plain_args)))
           "example-com-my-proj-gemini-video-transcribe" "clip_one.txt").
  vm_compute. reflexivity.
Defined.


Section Last.
Context `{Env}.

Lemma split_unique {A} (p : A → bool) (l1 : list A) x l2 (L : list A) :
  l1 ++ x :: l2 = L → p x = true →
  (List.length (List.filter p L) ≤ 1)%nat →
  l1 = before p L ∧ l2 = List.skipn (S (List.length (before p L))) L.
Proof.
  intros <- Hx Hlen. rewrite (before_unique p l1 x l2 Hx Hlen). split; [done|].
  clear. induction l1 as [|y l1 IH]; simpl; [done|apply IH].
Qed.

(** X24.  The cleanup comes last: [delete_blob] is entered only after the
    inference function has returned or raised, and after it nothing is
    called and no file is touched. *)
Theorem cleanup_runs_last (a : args) (s : state) (pre post : list event)
    (b n : string) :
  log (main a s) = pre ++ Enter (Call_delete_blob b n) :: post →
  (∃ inf, is_inference_entry (Enter inf) = true
          ∧ ((∃ v, In (Return inf v) pre) ∨ ∃ e, In (Raised inf e) pre))
  ∧ (marks post = [Return (Call_delete_blob b n) None]
     ∨ ∃ e, marks post = [Raised (Call_delete_blob b n) e]).
Proof.
  intros Hlog.
  assert (marks pre ++ Enter (Call_delete_blob b n) :: marks post
          = marks (log (main a s))) as Hsplit.
  { rewrite Hlog, marks_app. done. }
  assert (∀ x, In x (marks pre) → In x pre) as Hback.
  { intros x Hx. unfold marks in Hx. apply List.filter_In in Hx. tauto. }
  assert (In (Enter (Call_delete_blob b n)) (marks (log (main a s)))) as Hin.
  { rewrite <- Hsplit. apply in_elt. }
  pose proof (split_unique is_delete_entry _ _ _ _ Hsplit eq_refl) as Hparts.
  clear Hsplit Hlog.
  marked_paths a s; rewrite Hmarks in *.
  - in_cases Hin.
  - unfold provision_failure in Hprov.
    destruct (Str.truthy_opt (bucket a)), Hprov as [(? & ->)| ->]; in_cases Hin.
  - unfold ensured_buckets in *.
    destruct (Str.truthy_opt (bucket a)); in_cases Hin.
  - split.
    + exists (the_inference_call a pid (the_location a region)
                ("gs://" +:+ the_staging_bucket a pid (the_location a region)
                   +:+ "/" +:+ the_blob_name a now)).
      split; [unfold the_inference_call; by destruct (Str.truthy_opt (api_key a))|].
      unfold ensured_buckets, the_inference_call in *.
      destruct (Str.truthy_opt (bucket a)), (Str.truthy_opt (api_key a)),
        (keep_gcs a);
        save_cases Hsave;
        try destruct Hclean as [->|(e' & ->)]; try rewrite Hclean in *;
        in_cases Hin; inversion Hin; subst;
        (destruct Hparts as [Hpre _]; [simpl; lia|]);
        first [left; eexists; apply Hback; rewrite Hpre; simpl; auto 20; fail
              |right; eexists; apply Hback; rewrite Hpre; simpl; auto 20; fail].
    + unfold ensured_buckets, the_inference_call in *.
      destruct (Str.truthy_opt (bucket a)), (Str.truthy_opt (api_key a)),
        (keep_gcs a);
        save_cases Hsave;
        try destruct Hclean as [->|(e' & ->)]; try rewrite Hclean in *;
        in_cases Hin; inversion Hin; subst;
        (destruct Hparts as [_ Hpost]; [simpl; lia|]);
        rewrite Hpost; simpl; eauto.
Qed.

End Last.


Lemma cleanup_runs_last_witness :
  (∃ inf, is_inference_entry (Enter inf) = true
          ∧ ((∃ v, In (Return inf v)
                     (List.firstn 56 (log (mock_run sunny plain_args))))
             ∨ ∃ e, In (Raised inf e)
                      (List.firstn 56 (log (mock_run sunny plain_args)))))
  ∧ (marks (List.skipn 57 (log (mock_run sunny plain_args)))
     = [Return (Call_delete_blob
                  "gemini-transcriber-example-com-my-proj-us-central1"
                  "gemini-transcriber-staging/1700000000_Clip One.mp4") None]
     ∨ ∃ e, marks (List.skipn 57 (log (mock_run sunny plain_args)))
            = [Raised (Call_delete_blob
                         "gemini-transcriber-example-com-my-proj-us-central1"
                         "gemini-transcriber-staging/1700000000_Clip One.mp4") e]).
Proof.
  apply (@cleanup_runs_last (mock_env sunny) plain_args (mock_start sunny)).
  vm_compute. reflexivity.
Defined.
